(** * Optical Morse decoder: the timing state machine of [detector.py]

    The development embeds the decoding core of [main_receiver]: the
    lookup table [MORSE_TO_TEXT], [decode_morse], the two-state machine
    driven by the LED observations (lines 158-200), the periodic
    word-space check nested in it (lines 179-186), the handling of the
    clear key (lines 300-305) and the final decode after the loop (lines
    314-319).  Camera acquisition and drawing are not modelled: one loop
    iteration is abstracted to the values it feeds into the decoder
    ([current_time], [is_led_on], the key code).

    Times are Python floats holding seconds.  They are modelled as rationals
    ([Q]); every finite float is a rational and the comparisons agree.  The
    thresholds are taken at their decimal values and the rounding of the
    float subtraction is abstracted away.  Console output other than the
    final message is not modelled. *)

From Stdlib Require Import Ascii QArith Lqa.
From stdpp Require Import gmap strings list fin_maps.

Open Scope string_scope.

(** ** Python string primitives used by the decoder *)

Module PyStr.

(** Truth value of a [str]: non-empty. *)
Definition truthy (s : string) : bool :=
  match s with
  | EmptyString => false
  | String _ _ => true
  end.

(** [s.endswith(suffix)]: some suffix of [s] equals [suffix]. *)
Fixpoint endswith (s suffix : string) : bool :=
  if String.eqb s suffix then true
  else match s with
       | EmptyString => false
       | String _ s' => endswith s' suffix
       end.

(** Code points below 256 for which [str.isspace] holds. *)
Definition isspace (c : ascii) : bool :=
  let n := nat_of_ascii c in
  ((9 <=? n)%nat && (n <=? 13)%nat) || ((28 <=? n)%nat && (n <=? 32)%nat)
  || (n =? 133)%nat || (n =? 160)%nat.

Fixpoint lstrip_chars (p : ascii -> bool) (s : string) : string :=
  match s with
  | EmptyString => EmptyString
  | String c s' => if p c then lstrip_chars p s' else s
  end.

Fixpoint rstrip_chars (p : ascii -> bool) (s : string) : string :=
  match s with
  | EmptyString => EmptyString
  | String c s' =>
      match rstrip_chars p s' with
      | EmptyString => if p c then EmptyString else String c EmptyString
      | r => String c r
      end
  end.

Definition strip_chars (p : ascii -> bool) (s : string) : string :=
  rstrip_chars p (lstrip_chars p s).

(** [s.strip()] with no argument removes leading and trailing whitespace. *)
Definition strip (s : string) : string := strip_chars isspace s.

(** Every character of [s] satisfies [p]. *)
Fixpoint all_chars (p : ascii -> bool) (s : string) : bool :=
  match s with
  | EmptyString => true
  | String c s' => p c && all_chars p s'
  end.

(** [s] holds two space characters in a row. *)
Fixpoint double_space (s : string) : bool :=
  match s with
  | String c1 (String c2 _ as s') =>
      (Ascii.eqb c1 " " && Ascii.eqb c2 " ") || double_space s'
  | _ => false
  end.

End PyStr.

Import PyStr.

(** ** Configuration constants (lines 13-16 and 117), in seconds *)

Definition DOT_DASH_THRESHOLD_S : Q := 0.400.
Definition LETTER_GAP_THRESHOLD_S : Q := 0.500.
Definition WORD_GAP_THRESHOLD_S : Q := 1.000.
Definition PRINT_INTERVAL : Q := 0.5.

(** [x < y] on floats, as a boolean. *)
Definition Qlt_bool (x y : Q) : bool := negb (Qle_bool y x).

(** ** The lookup table (lines 43-51) and [decode_morse] (lines 82-84) *)

Definition MORSE_TABLE_ITEMS : list (string * string) :=
  [ (".-", "A"); ("-...", "B"); ("-.-.", "C"); ("-..", "D"); (".", "E");
    ("..-.", "F"); ("--.", "G"); ("....", "H"); ("..", "I"); (".---", "J");
    ("-.-", "K"); (".-..", "L"); ("--", "M"); ("-.", "N"); ("---", "O");
    (".--.", "P"); ("--.-", "Q"); (".-.", "R"); ("...", "S"); ("-", "T");
    ("..-", "U"); ("...-", "V"); (".--", "W"); ("-..-", "X"); ("-.--", "Y");
    ("--..", "Z");
    (".----", "1"); ("..---", "2"); ("...--", "3"); ("....-", "4");
    (".....", "5"); ("-....", "6"); ("--...", "7"); ("---..", "8");
    ("----.", "9"); ("-----", "0") ].

Definition MORSE_TO_TEXT : gmap string string := list_to_map MORSE_TABLE_ITEMS.

(** [morse_table.get(morse_code, '#')] *)
Definition decode_morse (morse_code : string) (morse_table : gmap string string)
  : string :=
  default "#" (morse_table !! morse_code).

(** ** Decoder state: the local variables of [main_receiver] that the
    state machine reads or writes (lines 105-116) *)

Record decoder : Type := Decoder {
  led_state : Z;
  current_morse_symbol : string;
  decoded_message : string;
  last_state_change_time : Q;
  last_print_time : Q;
  display_symbol_action : string
}.

Definition set_led_state (v : Z) (st : decoder) : decoder :=
  Decoder v (current_morse_symbol st) (decoded_message st)
          (last_state_change_time st) (last_print_time st)
          (display_symbol_action st).

Definition set_current_morse_symbol (v : string) (st : decoder) : decoder :=
  Decoder (led_state st) v (decoded_message st)
          (last_state_change_time st) (last_print_time st)
          (display_symbol_action st).

Definition set_decoded_message (v : string) (st : decoder) : decoder :=
  Decoder (led_state st) (current_morse_symbol st) v
          (last_state_change_time st) (last_print_time st)
          (display_symbol_action st).

Definition set_last_state_change_time (v : Q) (st : decoder) : decoder :=
  Decoder (led_state st) (current_morse_symbol st) (decoded_message st)
          v (last_print_time st) (display_symbol_action st).

Definition set_last_print_time (v : Q) (st : decoder) : decoder :=
  Decoder (led_state st) (current_morse_symbol st) (decoded_message st)
          (last_state_change_time st) v (display_symbol_action st).

Definition set_display_symbol_action (v : string) (st : decoder) : decoder :=
  Decoder (led_state st) (current_morse_symbol st) (decoded_message st)
          (last_state_change_time st) (last_print_time st) v.

(** Lines 105-116: the state before the first frame.  [t0] and [t1] are the
    two readings of [time.time()]. *)
Definition initial (t0 t1 : Q) : decoder :=
  Decoder 0 "" "" t0 t1 "IDLE".

(** The recurring statement pair
    [decoded_message += decode_morse(current_morse_symbol, MORSE_TO_TEXT);
     current_morse_symbol = ""]. *)
Definition decode_and_clear (st : decoder) : decoder :=
  set_current_morse_symbol ""
    (set_decoded_message
       (decoded_message st +:+ decode_morse (current_morse_symbol st) MORSE_TO_TEXT)
       st).

(** Lines 180-186: the body of the periodic check, run once the print
    interval has elapsed.  [time_elapsed] is line 154's
    [current_time - last_state_change_time]. *)
Definition watchdog (st : decoder) (current_time : Q) : decoder :=
  let time_elapsed := (current_time - last_state_change_time st)%Q in
  let st :=
    if Qlt_bool WORD_GAP_THRESHOLD_S time_elapsed
       && negb (endswith (decoded_message st) " ")
    then
      let st := if truthy (current_morse_symbol st)
                then decode_and_clear st else st in
      set_display_symbol_action "WORD_SPACE (Continuous)"
        (set_decoded_message (decoded_message st +:+ " ") st)
    else st in
  set_last_print_time current_time st.

(** Lines 153-200: one pass through the state machine. *)
Definition state_machine (st : decoder) (current_time : Q) (is_led_on : bool)
  : decoder :=
  let time_elapsed := (current_time - last_state_change_time st)%Q in
  if (led_state st =? 0)%Z then
    if is_led_on then
      let off_duration := time_elapsed in
      let st :=
        if Qle_bool WORD_GAP_THRESHOLD_S off_duration then
          let st := if truthy (current_morse_symbol st)
                    then decode_and_clear st else st in
          if negb (endswith (decoded_message st) " ")
          then set_display_symbol_action "WORD_SPACE"
                 (set_decoded_message (decoded_message st +:+ " ") st)
          else st
        else if Qle_bool LETTER_GAP_THRESHOLD_S off_duration then
          if truthy (current_morse_symbol st)
          then set_display_symbol_action "LETTER_SPACE" (decode_and_clear st)
          else st
        else st in
      set_last_state_change_time current_time (set_led_state 1 st)
    else
      if Qlt_bool PRINT_INTERVAL (current_time - last_print_time st)%Q
      then watchdog st current_time
      else st
  else if (led_state st =? 1)%Z then
    if negb is_led_on then
      let on_duration := time_elapsed in
      let st :=
        if Qlt_bool on_duration DOT_DASH_THRESHOLD_S
        then set_display_symbol_action "DOT"
               (set_current_morse_symbol (current_morse_symbol st +:+ ".") st)
        else set_display_symbol_action "DASH"
               (set_current_morse_symbol (current_morse_symbol st +:+ "-") st) in
      set_last_state_change_time current_time (set_led_state 0 st)
    else st
  else st.

(** Lines 301-305: the clear key.  [now] is the fresh [time.time()] reading. *)
Definition reset (st : decoder) (now : Q) : decoder :=
  set_last_state_change_time now
    (set_display_symbol_action "OUTPUT CLEARED"
       (set_decoded_message "" (set_current_morse_symbol "" st))).

(** Lines 314-319: the final decode check after the loop.  The second
    component is the text printed after "Final Decoded Message:". *)
Definition finalize (st : decoder) : decoder * string :=
  let st := if truthy (current_morse_symbol st)
            then set_decoded_message
                   (decoded_message st
                    +:+ decode_morse (current_morse_symbol st) MORSE_TO_TEXT) st
            else st in
  (st, strip (decoded_message st)).

(** ** Driving the decoder *)

(** What reaches the decoder: an observation of the LED, a run of the
    periodic check, or the clear key.  A [Tick] runs the periodic check
    without the print-interval gate, in the only state where the loop runs
    it ([led_state == 0]); an LED-off [Sample] in that state runs it behind
    the gate, as line 179 does. *)
Inductive event : Type :=
| Sample (current_time : Q) (is_led_on : bool)
| Tick (now : Q)
| Reset (now : Q).

Definition step (st : decoder) (ev : event) : decoder :=
  match ev with
  | Sample current_time is_led_on => state_machine st current_time is_led_on
  | Tick now => if (led_state st =? 0)%Z then watchdog st now else st
  | Reset now => reset st now
  end.

Definition run (st : decoder) (evs : list event) : decoder :=
  fold_left step evs st.

(** One iteration of the [while True] loop, reduced to what the decoder
    sees: whether a frame was read (line 125), whether the detection area
    lies inside it (line 141), the observation, the key code of line 294 and
    the clock reading of line 305. *)
Record frame : Type := Frame {
  ret : bool;
  roi_in_frame : bool;
  is_led_on : bool;
  current_time : Q;
  key : Z;
  clear_time : Q
}.

(** Lines 121-308 over the frames delivered so far; the loop is left on a
    failed read or on the key [q] (113); [c] is 99. *)
Fixpoint main_loop (st : decoder) (frames : list frame) : decoder :=
  match frames with
  | [] => st
  | f :: frames' =>
      if negb (ret f) then st
      else if negb (roi_in_frame f) then main_loop st frames'
      else
        let st := state_machine st (current_time f) (is_led_on f) in
        if (key f =? 113)%Z then st
        else
          let st := if (key f =? 99)%Z then reset st (clear_time f) else st in
          main_loop st frames'
  end.

(** [main_receiver] from line 104 on: the final state and the printed
    message. *)
Definition main_receiver (t0 t1 : Q) (frames : list frame) : decoder * string :=
  finalize (main_loop (initial t0 t1) frames).

(** The events a list of frames amounts to. *)
Fixpoint events_of (frames : list frame) : list event :=
  match frames with
  | [] => []
  | f :: frames' =>
      if negb (ret f) then []
      else if negb (roi_in_frame f) then events_of frames'
      else
        Sample (current_time f) (is_led_on f)
        :: (if (key f =? 113)%Z then []
            else if (key f =? 99)%Z then Reset (clear_time f) :: events_of frames'
            else events_of frames')
  end.

(** ** Classification of durations, read off the branch guards *)

Inductive Symbol : Type := Dot | Dash.
Inductive GapKind : Type := NoGap | LetterGap | WordGap.

(** The guard of line 192. *)
Definition classifyOnDuration (on_duration : Q) : Symbol :=
  if Qlt_bool on_duration DOT_DASH_THRESHOLD_S then Dot else Dash.

(** The guards of lines 162 and 170. *)
Definition classifyOffDuration (off_duration : Q) : GapKind :=
  if Qle_bool WORD_GAP_THRESHOLD_S off_duration then WordGap
  else if Qle_bool LETTER_GAP_THRESHOLD_S off_duration then LetterGap
  else NoGap.

Definition symbol_token (s : Symbol) : string :=
  match s with Dot => "." | Dash => "-" end.

(** ** Characters of the message *)

Definition is_upper (c : ascii) : bool :=
  (65 <=? nat_of_ascii c)%nat && (nat_of_ascii c <=? 90)%nat.

Definition is_digit (c : ascii) : bool :=
  (48 <=? nat_of_ascii c)%nat && (nat_of_ascii c <=? 57)%nat.

Definition is_table_char (c : ascii) : bool :=
  is_upper c || is_digit c || Ascii.eqb c "#".

Definition is_message_char (c : ascii) : bool :=
  is_table_char c || Ascii.eqb c " ".

(** Removal of leading and trailing space characters only. *)
Definition trim_spaces (s : string) : string :=
  strip_chars (fun c => Ascii.eqb c " ") s.

(** The standard international Morse encodings of the letters and digits,
    listed by character. *)
Definition digit_pattern (n : nat) : string :=
  let dots k := String.string_of_list_ascii (repeat "."%char k) in
  let dashes k := String.string_of_list_ascii (repeat "-"%char k) in
  if (n <=? 5)%nat then dots n +:+ dashes (5 - n)%nat
  else dashes (n - 5)%nat +:+ dots (10 - n)%nat.

Definition standard_morse : list (string * string) :=
  [ ("A", ".-"); ("B", "-..."); ("C", "-.-."); ("D", "-.."); ("E", ".");
    ("F", "..-."); ("G", "--."); ("H", "...."); ("I", ".."); ("J", ".---");
    ("K", "-.-"); ("L", ".-.."); ("M", "--"); ("N", "-."); ("O", "---");
    ("P", ".--."); ("Q", "--.-"); ("R", ".-."); ("S", "..."); ("T", "-");
    ("U", "..-"); ("V", "...-"); ("W", ".--"); ("X", "-..-"); ("Y", "-.--");
    ("Z", "--..");
    ("0", digit_pattern 0); ("1", digit_pattern 1); ("2", digit_pattern 2);
    ("3", digit_pattern 3); ("4", digit_pattern 4); ("5", digit_pattern 5);
    ("6", digit_pattern 6); ("7", digit_pattern 7); ("8", digit_pattern 8);
    ("9", digit_pattern 9) ].

(** ** The invariant of the decoded message: no two spaces in a row, and
    only table characters, the placeholder and spaces. *)

Definition message_ok (m : string) : Prop :=
  double_space m = false /\ all_chars is_message_char m = true.

(** * Definitions for the further properties *)

Definition is_dot_dash (c : ascii) : bool :=
  Ascii.eqb c "." || Ascii.eqb c "-".

Definition is_reset (ev : event) : bool :=
  match ev with Reset _ => true | _ => false end.

(** An event that cannot be a rising edge: a run of the periodic check or a
    sample with the LED off. *)
Definition is_quiet (ev : event) : bool :=
  match ev with
  | Sample _ is_led_on => negb is_led_on
  | Tick _ => true
  | Reset _ => false
  end.

(** The part of the state that decoding depends on: everything but the
    displayed last action. *)
Definition core (st : decoder) : Z * string * string * Q * Q :=
  (led_state st, current_morse_symbol st, decoded_message st,
   last_state_change_time st, last_print_time st).

(** The message once a pending symbol has been decoded into it. *)
Definition flushed_message (st : decoder) : string :=
  if truthy (current_morse_symbol st)
  then decoded_message st +:+ decode_morse (current_morse_symbol st) MORSE_TO_TEXT
  else decoded_message st.

(** Nothing has been received: signal off, empty buffer, and a message that
    is empty or the single space of the periodic check. *)
Definition nothing_received (st : decoder) : Prop :=
  led_state st = 0%Z /\ current_morse_symbol st = ""
  /\ (decoded_message st = "" \/ decoded_message st = " ").

(** ** Acquisition: the detection area and the brightness test
    (lines 19, 34-36, 122-151) *)

Definition ROI_W : Z := 100.
Definition ROI_H : Z := 100.
Definition ROI_CENTER_X : Z := 1030.
Definition ROI_CENTER_Y : Z := 470.

(** Lines 137-138; [//] is floor division. *)
Definition detection_roi_x : Z := ROI_CENTER_X - ROI_W / 2.
Definition detection_roi_y : Z := ROI_CENTER_Y - ROI_H / 2.

(** The guard of line 141, on which the iteration is skipped. *)
Definition roi_out_of_bounds (frame_h frame_w : Z) : bool :=
  (detection_roi_y + ROI_H >? frame_h)%Z || (detection_roi_x + ROI_W >? frame_w)%Z.

(** What one loop iteration reads from the outside: the result of
    [cap.read()] with the frame's height and width, the trackbar position,
    the largest grey value of the detection area, the clock, the key code
    and the clock reading of the clear branch. *)
Record capture : Type := Capture {
  cap_ret : bool;
  frame_h : Z;
  frame_w : Z;
  brightness_threshold : Z;
  max_brightness : Z;
  cap_time : Q;
  cap_key : Z;
  cap_clear_time : Q
}.

(** Lines 125, 141 and 151 as the inputs of the decoder loop. *)
Definition frame_of_capture (c : capture) : frame :=
  Frame (cap_ret c)
        (negb (roi_out_of_bounds (frame_h c) (frame_w c)))
        (max_brightness c >? brightness_threshold c)%Z
        (cap_time c) (cap_key c) (cap_clear_time c).

(** ** The message card (lines 222-224) *)

(** [s[k:]] for [0 <= k]. *)
Fixpoint drop_chars (k : nat) (s : string) : string :=
  match k, s with
  | O, _ => s
  | S _, EmptyString => EmptyString
  | S k', String _ s' => drop_chars k' s'
  end.

(** [s[-n:]] for [n > 0]: the last [n] characters, all of [s] if it is
    shorter. *)
Definition last_chars (n : nat) (s : string) : string :=
  drop_chars (String.length s - n) s.

Definition decoded_display (decoded_message : string) : string :=
  let decoded_display :=
    if truthy (strip decoded_message) then strip decoded_message else "..." in
  if (30 <? String.length decoded_display)%nat
  then last_chars 30 decoded_display
  else decoded_display.

(** What has been decoded so far and where the state machine stands. *)
Definition decoding (st : decoder) : Z * string * string * Q :=
  (led_state st, current_morse_symbol st, decoded_message st,
   last_state_change_time st).

(** ** Keyed signals as the loop sees them *)

(** Nominal keying times (lines 7-11), in milliseconds. *)
Definition DOT_DURATION_MS : Z := 200.
Definition DASH_DURATION_MS : Z := 600.
Definition GAP_ELEMENT_MS : Z := 200.
Definition GAP_LETTER_MS : Z := 600.
Definition GAP_WORD_MS : Z := 1400.

Definition seconds (ms : Z) : Q := ms # 1000.

(** Line 294 when no key is pressed: [waitKey] gives -1, masked to 255. *)
Definition NO_KEY : Z := 255.

(** A frame that is read, holds the detection area and comes with no key. *)
Definition sample_frame (t : Q) (on : bool) : frame :=
  Frame true true on t NO_KEY 0.

(** One pulse as a run of frames: the frames taken while the LED is still
    off, the frame that first sees it on, the frames taken while it stays
    on, and the frame that first sees it off again.  All times are clock
    readings. *)
Record keyed_pulse : Type := KeyedPulse {
  off_frames : list Q;
  rise : Q;
  on_frames : list Q;
  fall : Q
}.

Definition pulse_frames (p : keyed_pulse) : list frame :=
  (map (fun t => sample_frame t false) (off_frames p)
   ++ sample_frame (rise p) true
   :: map (fun t => sample_frame t true) (on_frames p)
   ++ [sample_frame (fall p) false])%list.

Definition pulse_events (p : keyed_pulse) : list event :=
  (map (fun t => Sample t false) (off_frames p)
   ++ Sample (rise p) true
   :: map (fun t => Sample t true) (on_frames p)
   ++ [Sample (fall p) false])%list.

(** The frames after the last pulse: any number with the LED off, and the
    one on which [q] (113) is pressed. *)
Definition quit_frames (trailing : list Q) (quit_time : Q) : list frame :=
  (map (fun t => sample_frame t false) trailing
   ++ [Frame true true false quit_time 113 0])%list.

(** The frames before a pulse are not later than its first lit frame. *)
Definition frames_in_gap (p : keyed_pulse) : bool :=
  forallb (fun t => Qle_bool t (rise p)) (off_frames p).

Definition gap_is (k : GapKind) (gap : Q) : bool :=
  match classifyOffDuration gap, k with
  | NoGap, NoGap | LetterGap, LetterGap | WordGap, WordGap => true
  | _, _ => false
  end.

(** The time of the last transition after the pulses [ps]. *)
Definition last_fall (prev : Q) (ps : list keyed_pulse) : Q :=
  fold_left (fun _ p => fall p) ps prev.

(** The pulses of one letter after its first: each follows the previous
    falling edge [prev] by less than a letter gap, as the state machine
    measures it. *)
Fixpoint symbols_timed (prev : Q) (ps : list keyed_pulse) : bool :=
  match ps with
  | [] => true
  | p :: ps' =>
      frames_in_gap p && gap_is NoGap (rise p - prev)
      && symbols_timed (fall p) ps'
  end.

(** A letter: at least one pulse, the first after a gap accepted by
    [first]. *)
Definition letter_timed (first : Q -> bool) (prev : Q)
           (letter : list keyed_pulse) : bool :=
  match letter with
  | [] => false
  | p :: ps =>
      frames_in_gap p && first (rise p - prev)%Q && symbols_timed (fall p) ps
  end.

(** The letters of a word after its first, each after a letter gap. *)
Fixpoint letters_timed (prev : Q) (ls : list (list keyed_pulse)) : bool :=
  match ls with
  | [] => true
  | l :: ls' =>
      letter_timed (gap_is LetterGap) prev l
      && letters_timed (last_fall prev l) ls'
  end.

Definition word_timed (first : Q -> bool) (prev : Q)
           (w : list (list keyed_pulse)) : bool :=
  match w with
  | [] => false
  | l :: ls => letter_timed first prev l && letters_timed (last_fall prev l) ls
  end.

(** The words of a text after its first, each after a word gap. *)
Fixpoint words_timed (prev : Q) (ws : list (list (list keyed_pulse))) : bool :=
  match ws with
  | [] => true
  | w :: ws' =>
      word_timed (gap_is WordGap) prev w
      && words_timed (last_fall prev (concat w)) ws'
  end.

(** A text keyed after the transition time [prev]; the gap before its very
    first pulse is free. *)
Definition text_timed (prev : Q) (text : list (list (list keyed_pulse)))
  : bool :=
  match text with
  | [] => true
  | w :: ws =>
      word_timed (fun _ => true) prev w
      && words_timed (last_fall prev (concat w)) ws
  end.

(** The symbols the measured on durations of a letter's pulses stand for. *)
Fixpoint pattern_of (letter : list keyed_pulse) : string :=
  match letter with
  | [] => ""
  | p :: letter' =>
      symbol_token (classifyOnDuration (fall p - rise p)) +:+ pattern_of letter'
  end.

Fixpoint decode_letters (patterns : list string) : string :=
  match patterns with
  | [] => ""
  | p :: patterns' => decode_morse p MORSE_TO_TEXT +:+ decode_letters patterns'
  end.

Definition text_of (text : list (list (list keyed_pulse))) : string :=
  String.concat " " (map (fun w => decode_letters (map pattern_of w)) text).

Definition signal_frames (text : list (list (list keyed_pulse))) : list frame :=
  concat (map pulse_frames (concat (concat text))).

(** The decoder after the events of the pulses [ps]. *)
Definition play (st : decoder) (ps : list keyed_pulse) : decoder :=
  run st (concat (map pulse_events ps)).

(** The space a word gap puts in front of the next letter. *)
Definition lead_space (st : decoder) (gap : Q) : string :=
  match classifyOffDuration gap with
  | WordGap => if endswith (flushed_message st) " " then "" else " "
  | _ => ""
  end.

(** Every element preceded by a space. *)
Fixpoint spaced (l : list string) : string :=
  match l with
  | [] => ""
  | x :: l' => " " +:+ x +:+ spaced l'
  end.

(** ** Keying at the nominal times *)

(** A measured time within 100 ms of its nominal value. *)
Definition near (nominal_ms : Z) (measured : Q) : bool :=
  Qle_bool (seconds nominal_ms - 0.1) measured
  && Qle_bool measured (seconds nominal_ms + 0.1).

(** The nominal on duration of a symbol of a pattern. *)
Definition nominal_duration_ms (c : ascii) : Z :=
  if Ascii.eqb c "." then DOT_DURATION_MS else DASH_DURATION_MS.

(** The pulses [ps] key the symbols of [pattern]: one pulse per symbol, its
    on duration near the nominal one; the first gap is accepted by [first],
    the others are near the element gap. *)
Fixpoint symbols_near (first : Q -> bool) (prev : Q) (pattern : string)
         (ps : list keyed_pulse) : bool :=
  match pattern, ps with
  | EmptyString, [] => true
  | String c pattern', p :: ps' =>
      frames_in_gap p && first (rise p - prev)%Q
      && near (nominal_duration_ms c) (fall p - rise p)
      && symbols_near (near GAP_ELEMENT_MS) (fall p) pattern' ps'
  | _, _ => false
  end.

(** The letters [ls] key the patterns one by one, the later ones after
    gaps near the letter gap. *)
Fixpoint letters_near (first : Q -> bool) (prev : Q) (patterns : list string)
         (ls : list (list keyed_pulse)) : bool :=
  match patterns, ls with
  | [], [] => true
  | pat :: patterns', l :: ls' =>
      symbols_near first prev pat l
      && letters_near (near GAP_LETTER_MS) (last_fall prev l) patterns' ls'
  | _, _ => false
  end.

(** The words of the signal key the words of patterns one by one, the later
    ones after gaps near the word gap. *)
Fixpoint words_near (first : Q -> bool) (prev : Q) (words : list (list string))
         (ws : list (list (list keyed_pulse))) : bool :=
  match words, ws with
  | [], [] => true
  | w :: words', s :: ws' =>
      letters_near first prev w s
      && words_near (near GAP_WORD_MS) (last_fall prev (concat s)) words' ws'
  | _, _ => false
  end.

(** A pattern that can be keyed: at least one symbol, dots and dashes only. *)
Definition keyable (pattern : string) : bool :=
  truthy pattern && all_chars is_dot_dash pattern.

(** A word that can be keyed: at least one letter, all of them keyable. *)
Definition word_keyable (patterns : list string) : bool :=
  match patterns with
  | [] => false
  | _ :: _ => forallb keyable patterns
  end.

(** The pattern the table decodes to the character [c], if there is one. *)
Definition pattern_for (c : ascii) : option string :=
  fst <$> List.find (fun kv : string * string => String.eqb kv.2 (String c ""))
                    MORSE_TABLE_ITEMS.

(** A word of letters and digits as the patterns of its characters. *)
Fixpoint encode_word (w : string) : list string :=
  match w with
  | EmptyString => []
  | String c w' => default "" (pattern_for c) :: encode_word w'
  end.

(** A word that can be sent: at least one character, letters A-Z and digits
    only. *)
Definition sendable (w : string) : bool :=
  truthy w && all_chars (fun c => is_upper c || is_digit c) w.

(** ** Comparisons on rationals *)

Lemma Qlt_bool_iff x y : Qlt_bool x y = true <-> (x < y)%Q.
Proof.
  unfold Qlt_bool. rewrite negb_true_iff, <- not_true_iff_false, Qle_bool_iff.
  split; [apply Qnot_le_lt | apply Qlt_not_le].
Qed.

Lemma Qlt_bool_false x y : Qlt_bool x y = false <-> (y <= x)%Q.
Proof. unfold Qlt_bool. rewrite negb_false_iff. apply Qle_bool_iff. Qed.

Lemma Qle_bool_false x y : Qle_bool x y = false <-> (y < x)%Q.
Proof.
  rewrite <- not_true_iff_false, Qle_bool_iff.
  split; [apply Qnot_le_lt | apply Qlt_not_le].
Qed.

(** ** Strings: append, suffix test, character predicates *)

Lemma append_cons a s t : String a s +:+ t = String a (s +:+ t).
Proof. reflexivity. Qed.

Lemma append_nil_l t : "" +:+ t = t.
Proof. reflexivity. Qed.

Lemma append_nil_r s : s +:+ "" = s.
Proof.
  induction s as [|a s IH]; [reflexivity|].
  now rewrite append_cons, IH.
Qed.

Lemma append_assoc s1 s2 s3 : (s1 +:+ s2) +:+ s3 = s1 +:+ (s2 +:+ s3).
Proof.
  induction s1 as [|a s1 IH]; [reflexivity|].
  now rewrite !append_cons, IH.
Qed.

Lemma append_nonempty_neq m s : s <> "" -> m +:+ s <> m.
Proof.
  intros Hs. induction m as [|a m IH].
  - rewrite append_nil_l. exact Hs.
  - rewrite append_cons. intros E. injection E as E. exact (IH E).
Qed.

Lemma eqb_snoc_single s c d :
  String.eqb (s +:+ String c "") (String d "")
  = match s with EmptyString => Ascii.eqb c d | String _ _ => false end.
Proof.
  destruct s as [|a [|b s]]; rewrite ?append_cons, ?append_nil_l; simpl.
  - destruct (Ascii.eqb c d); reflexivity.
  - destruct (Ascii.eqb a d); reflexivity.
  - destruct (Ascii.eqb a d); reflexivity.
Qed.

Lemma endswith_snoc s c d :
  endswith (s +:+ String c "") (String d "") = Ascii.eqb c d.
Proof.
  induction s as [|a s IH].
  - rewrite append_nil_l. simpl. destruct (Ascii.eqb c d); reflexivity.
  - rewrite append_cons. cbn [endswith]. rewrite IH, <- append_cons.
    rewrite eqb_snoc_single. destruct (Ascii.eqb c d); reflexivity.
Qed.

Lemma double_space_cons a b s :
  double_space (String a (String b s))
  = (Ascii.eqb a " " && Ascii.eqb b " ") || double_space (String b s).
Proof. reflexivity. Qed.

Lemma endswith_cons a b s t :
  endswith (String a (String b s)) (String t "") = endswith (String b s) (String t "").
Proof. simpl. destruct (Ascii.eqb a t); reflexivity. Qed.

Lemma double_space_snoc s c :
  double_space (s +:+ String c "")
  = double_space s || (endswith s " " && Ascii.eqb c " ").
Proof.
  induction s as [|a s IH]; [reflexivity|].
  destruct s as [|b s].
  - rewrite append_cons, append_nil_l. simpl.
    destruct (Ascii.eqb a " "); simpl; [|reflexivity].
    destruct (Ascii.eqb c " "); reflexivity.
  - rewrite 2!append_cons, double_space_cons, <- append_cons, IH.
    rewrite double_space_cons, endswith_cons.
    now rewrite orb_assoc.
Qed.

Lemma all_chars_app p s1 s2 :
  all_chars p (s1 +:+ s2) = all_chars p s1 && all_chars p s2.
Proof.
  induction s1 as [|a s1 IH]; [reflexivity|].
  rewrite append_cons. simpl. rewrite IH. destruct (p a); reflexivity.
Qed.

Lemma double_space_iff s :
  double_space s = true <-> exists a b, s = a +:+ "  " +:+ b.
Proof.
  split.
  - induction s as [|c1 s IH]; [discriminate|].
    destruct s as [|c2 s]; [discriminate|].
    rewrite double_space_cons, orb_true_iff, andb_true_iff, !Ascii.eqb_eq.
    intros [[-> ->] | H].
    + exists "", s. reflexivity.
    + destruct (IH H) as (a & b & E). exists (String c1 a), b.
      now rewrite append_cons, <- E.
  - intros (a & b & ->). induction a as [|x a IH]; [reflexivity|].
    rewrite append_cons. destruct (a +:+ "  " +:+ b) as [|y r] eqn:E.
    + discriminate IH.
    + rewrite double_space_cons, IH. apply orb_true_r.
Qed.

Lemma all_chars_iff p s :
  all_chars p s = true
  <-> forall c, In c (String.list_ascii_of_string s) -> p c = true.
Proof.
  induction s as [|a s IH]; simpl.
  - split; [intros _ c [] | reflexivity].
  - rewrite andb_true_iff, IH. split.
    + intros [Ha Hs] c [<- | Hc]; auto.
    + intros H. split; [apply H; now left | intros c Hc; apply H; now right].
Qed.

Lemma append_single_neq m c : m +:+ String c "" <> m.
Proof.
  induction m as [|a m IH]; [discriminate|].
  rewrite append_cons. intros E. injection E as E. exact (IH E).
Qed.

(** ** Characters produced by the table *)

Lemma table_char_not_space c : is_table_char c = true -> Ascii.eqb c " " = false.
Proof.
  destruct c as [[] [] [] [] [] [] [] []]; vm_compute; congruence.
Qed.

Lemma message_char_isspace c :
  is_message_char c = true -> isspace c = Ascii.eqb c " ".
Proof.
  destruct c as [[] [] [] [] [] [] [] []]; vm_compute; congruence.
Qed.

Lemma table_values_single_char :
  Forall (fun kv : string * string =>
            exists c, kv.2 = String c "" /\ is_table_char c = true)
         MORSE_TABLE_ITEMS.
Proof.
  unfold MORSE_TABLE_ITEMS.
  repeat (apply Forall_cons; split;
          [eexists; split; [reflexivity | reflexivity] |]).
  apply Forall_nil_2.
Qed.

Lemma decode_morse_char p :
  exists c, decode_morse p MORSE_TO_TEXT = String c ""
            /\ is_table_char c = true.
Proof.
  unfold decode_morse, MORSE_TO_TEXT.
  destruct (list_to_map MORSE_TABLE_ITEMS !! p) as [v|] eqn:E; simpl.
  - apply elem_of_list_to_map_2 in E.
    exact (proj1 (Forall_forall _ _) table_values_single_char _ E).
  - exists "#"%char. split; reflexivity.
Qed.

Lemma decode_space_nonempty p :
  decode_morse p MORSE_TO_TEXT +:+ " " <> "".
Proof. destruct (decode_morse_char p) as (c & -> & _). discriminate. Qed.

Lemma is_message_char_iff c :
  is_message_char c = true
  <-> (65 <= nat_of_ascii c <= 90)%nat \/ (48 <= nat_of_ascii c <= 57)%nat
      \/ c = "#"%char \/ c = " "%char.
Proof.
  unfold is_message_char, is_table_char, is_upper, is_digit.
  rewrite !orb_true_iff, !andb_true_iff, !Nat.leb_le, !Ascii.eqb_eq. tauto.
Qed.

Lemma standard_patterns_cover_table :
  Forall (fun k => k ∈ standard_morse.*2) MORSE_TABLE_ITEMS.*1.
Proof.
  apply Forall_forall. intros k Hk.
  apply list_elem_of_In in Hk. apply list_elem_of_In.
  vm_compute in Hk. vm_compute.
  repeat (destruct Hk as [<- | Hk]; [tauto |]). destruct Hk.
Qed.

(** ** Stripping *)

Lemma lstrip_chars_all r p s :
  all_chars r s = true -> all_chars r (lstrip_chars p s) = true.
Proof.
  induction s as [|a s IH]; simpl; [reflexivity|].
  intros H. destruct (p a); [|exact H].
  apply andb_true_iff in H. now apply IH.
Qed.

Lemma lstrip_chars_ext r p q s :
  (forall c, r c = true -> p c = q c) ->
  all_chars r s = true -> lstrip_chars p s = lstrip_chars q s.
Proof.
  intros Hpq. induction s as [|a s IH]; simpl; [reflexivity|].
  rewrite andb_true_iff. intros [Ha Hs]. rewrite <- (Hpq a Ha).
  destruct (p a); [now apply IH | reflexivity].
Qed.

Lemma rstrip_chars_ext r p q s :
  (forall c, r c = true -> p c = q c) ->
  all_chars r s = true -> rstrip_chars p s = rstrip_chars q s.
Proof.
  intros Hpq. induction s as [|a s IH]; simpl; [reflexivity|].
  rewrite andb_true_iff. intros [Ha Hs]. now rewrite <- (IH Hs), <- (Hpq a Ha).
Qed.

Lemma strip_chars_ext r p q s :
  (forall c, r c = true -> p c = q c) ->
  all_chars r s = true -> strip_chars p s = strip_chars q s.
Proof.
  intros Hpq Hs. unfold strip_chars.
  rewrite <- (lstrip_chars_ext r p q s Hpq Hs).
  apply (rstrip_chars_ext r); [exact Hpq | now apply lstrip_chars_all].
Qed.

Lemma strip_message s :
  all_chars is_message_char s = true -> strip s = trim_spaces s.
Proof. apply strip_chars_ext, message_char_isspace. Qed.

(** ** Classification of durations *)

Lemma classifyOffDuration_cases (d : Q) :
  (classifyOffDuration d = NoGap /\ (d < LETTER_GAP_THRESHOLD_S)%Q)
  \/ (classifyOffDuration d = LetterGap
      /\ (LETTER_GAP_THRESHOLD_S <= d)%Q /\ (d < WORD_GAP_THRESHOLD_S)%Q)
  \/ (classifyOffDuration d = WordGap /\ (WORD_GAP_THRESHOLD_S <= d)%Q).
Proof.
  unfold classifyOffDuration.
  destruct (Qle_bool WORD_GAP_THRESHOLD_S d) eqn:Ew.
  - right; right. split; [reflexivity | now apply Qle_bool_iff].
  - apply Qle_bool_false in Ew.
    destruct (Qle_bool LETTER_GAP_THRESHOLD_S d) eqn:El.
    + right; left. apply Qle_bool_iff in El. auto.
    + left. apply Qle_bool_false in El. auto.
Qed.

Lemma classifyOnDuration_cases (d : Q) :
  (classifyOnDuration d = Dot /\ (d < DOT_DASH_THRESHOLD_S)%Q)
  \/ (classifyOnDuration d = Dash /\ (DOT_DASH_THRESHOLD_S <= d)%Q).
Proof.
  unfold classifyOnDuration.
  destruct (Qlt_bool d DOT_DASH_THRESHOLD_S) eqn:E.
  - left. split; [reflexivity | now apply Qlt_bool_iff].
  - right. split; [reflexivity | now apply Qlt_bool_false].
Qed.

(** ** The two edges and the periodic check *)

(** The rising edge written by gap kind. *)
Lemma state_machine_rising (st : decoder) (current_time : Q) :
  led_state st = 0%Z ->
  let flushed :=
    if truthy (current_morse_symbol st)
    then decoded_message st
         +:+ decode_morse (current_morse_symbol st) MORSE_TO_TEXT
    else decoded_message st in
  let st' := state_machine st current_time true in
  led_state st' = 1%Z
  /\ last_state_change_time st' = current_time
  /\ last_print_time st' = last_print_time st
  /\ match classifyOffDuration (current_time - last_state_change_time st) with
     | WordGap =>
         current_morse_symbol st' = ""
         /\ decoded_message st'
            = (if endswith flushed " " then flushed else flushed +:+ " ")
     | LetterGap =>
         current_morse_symbol st' = "" /\ decoded_message st' = flushed
     | NoGap =>
         current_morse_symbol st' = current_morse_symbol st
         /\ decoded_message st' = decoded_message st
     end.
Proof.
  intros Hoff. unfold state_machine, classifyOffDuration. rewrite Hoff. simpl.
  destruct (Qle_bool WORD_GAP_THRESHOLD_S _).
  - destruct (current_morse_symbol st) as [|a s] eqn:Hs; simpl.
    + destruct (endswith (decoded_message st) " "); simpl; auto.
    + rewrite ?Hs. destruct (endswith _ " "); simpl; rewrite ?Hs; auto.
  - destruct (Qle_bool LETTER_GAP_THRESHOLD_S _).
    + destruct (current_morse_symbol st) as [|a s] eqn:Hs; simpl;
        rewrite ?Hs; auto.
    + simpl. auto.
Qed.

(** The falling edge written by symbol. *)
Lemma state_machine_falling (st : decoder) (current_time : Q) :
  led_state st = 1%Z ->
  let st' := state_machine st current_time false in
  current_morse_symbol st'
  = current_morse_symbol st
    +:+ symbol_token
          (classifyOnDuration (current_time - last_state_change_time st))
  /\ led_state st' = 0%Z
  /\ last_state_change_time st' = current_time
  /\ last_print_time st' = last_print_time st
  /\ decoded_message st' = decoded_message st.
Proof.
  intros Hon. unfold state_machine, classifyOnDuration. rewrite Hon. simpl.
  destruct (Qlt_bool _ DOT_DASH_THRESHOLD_S); simpl; auto.
Qed.

(** What the periodic check does on either side of the word-gap threshold. *)
Lemma watchdog_spec (st : decoder) (now : Q) :
  let st' := watchdog st now in
  let flushed :=
    if truthy (current_morse_symbol st)
    then decoded_message st
         +:+ decode_morse (current_morse_symbol st) MORSE_TO_TEXT
    else decoded_message st in
  last_state_change_time st' = last_state_change_time st
  /\ led_state st' = led_state st
  /\ last_print_time st' = now
  /\ ((WORD_GAP_THRESHOLD_S < now - last_state_change_time st)%Q ->
      endswith (decoded_message st) " " = false ->
      current_morse_symbol st' = "" /\ decoded_message st' = flushed +:+ " ")
  /\ ((now - last_state_change_time st <= WORD_GAP_THRESHOLD_S)%Q
      \/ endswith (decoded_message st) " " = true ->
      current_morse_symbol st' = current_morse_symbol st
      /\ decoded_message st' = decoded_message st).
Proof.
  unfold watchdog. cbv zeta.
  destruct (Qlt_bool WORD_GAP_THRESHOLD_S _) eqn:Eq;
    [apply Qlt_bool_iff in Eq | apply Qlt_bool_false in Eq];
    destruct (endswith (decoded_message st) " ") eqn:Ee;
    destruct (current_morse_symbol st) as [|a s] eqn:Hs;
    simpl; rewrite ?Hs; repeat split; auto; intros;
    repeat match goal with H : _ \/ _ |- _ => destruct H end;
    try discriminate; try (split; reflexivity);
    exfalso; eapply Qlt_not_le; eassumption.
Qed.

(** ** Preservation of the message invariant *)

Lemma message_ok_empty : message_ok "".
Proof. split; reflexivity. Qed.

Lemma endswith_decode m p :
  endswith (m +:+ decode_morse p MORSE_TO_TEXT) " " = false.
Proof.
  destruct (decode_morse_char p) as (c & -> & Hc).
  rewrite endswith_snoc. now apply table_char_not_space.
Qed.

Lemma message_ok_decode m p :
  message_ok m -> message_ok (m +:+ decode_morse p MORSE_TO_TEXT).
Proof.
  intros [Hd Ha]. destruct (decode_morse_char p) as (c & -> & Hc). split.
  - rewrite double_space_snoc, Hd, (table_char_not_space c Hc).
    now rewrite andb_false_r.
  - rewrite all_chars_app, Ha. simpl. unfold is_message_char. now rewrite Hc.
Qed.

Lemma message_ok_space m :
  message_ok m -> endswith m " " = false -> message_ok (m +:+ " ").
Proof.
  intros [Hd Ha] He. split.
  - now rewrite double_space_snoc, Hd, He.
  - now rewrite all_chars_app, Ha.
Qed.

Create HintDb morse.

#[local] Hint Resolve message_ok_empty message_ok_decode message_ok_space
  endswith_decode : morse.

Lemma watchdog_ok st now :
  message_ok (decoded_message st) -> message_ok (decoded_message (watchdog st now)).
Proof.
  intros H. unfold watchdog.
  destruct (Qlt_bool _ _); simpl; [|exact H].
  destruct (endswith (decoded_message st) " ") eqn:E; simpl; [exact H|].
  destruct (truthy (current_morse_symbol st)); simpl; auto with morse.
Qed.

Lemma state_machine_ok st t on :
  message_ok (decoded_message st) ->
  message_ok (decoded_message (state_machine st t on)).
Proof.
  intros H. unfold state_machine.
  destruct (led_state st =? 0)%Z.
  - destruct on.
    + destruct (Qle_bool WORD_GAP_THRESHOLD_S _).
      * destruct (truthy (current_morse_symbol st)); simpl.
        -- rewrite endswith_decode. simpl. auto with morse.
        -- destruct (endswith (decoded_message st) " ") eqn:E; simpl;
             auto with morse.
      * destruct (Qle_bool LETTER_GAP_THRESHOLD_S _); [|exact H].
        destruct (truthy (current_morse_symbol st)); simpl; auto with morse.
    + destruct (Qlt_bool PRINT_INTERVAL _); [now apply watchdog_ok | exact H].
  - destruct (led_state st =? 1)%Z; [|exact H].
    destruct on; simpl; [exact H|].
    destruct (Qlt_bool _ DOT_DASH_THRESHOLD_S); exact H.
Qed.

Lemma step_ok st ev :
  message_ok (decoded_message st) -> message_ok (decoded_message (step st ev)).
Proof.
  intros H. destruct ev as [t on | now | now]; simpl.
  - now apply state_machine_ok.
  - destruct (led_state st =? 0)%Z; [now apply watchdog_ok | exact H].
  - exact message_ok_empty.
Qed.

Lemma run_ok evs : forall st,
  message_ok (decoded_message st) -> message_ok (decoded_message (run st evs)).
Proof.
  induction evs as [|ev evs IH]; intros st H; [exact H|].
  apply IH. now apply step_ok.
Qed.

Lemma main_loop_run frames : forall st,
  main_loop st frames = run st (events_of frames).
Proof.
  induction frames as [|f frames IH]; intros st; [reflexivity|].
  simpl. destruct (ret f); simpl; [|reflexivity].
  destruct (roi_in_frame f); simpl; [|apply IH].
  destruct (key f =? 113)%Z; [reflexivity|].
  destruct (key f =? 99)%Z; simpl; apply IH.
Qed.

(** The same two invariants for the program as a whole. *)
Lemma main_receiver_message_ok t0 t1 frames :
  message_ok (decoded_message (main_receiver t0 t1 frames).1).
Proof.
  unfold main_receiver, finalize. rewrite main_loop_run.
  pose proof (run_ok (events_of frames) (initial t0 t1) message_ok_empty) as H.
  revert H. generalize (run (initial t0 t1) (events_of frames)). intros st H.
  destruct (truthy _); [apply message_ok_decode|]; exact H.
Qed.

(** ** The scenarios of the specification, run on the model *)

Example scenario_A :
  let st := run (initial 0 0)
              [ Sample 0.10 true; Sample 0.25 false; Sample 0.40 true;
                Sample 0.55 false; Sample 0.70 true; Sample 0.85 false;
                Sample 1.00 true; Sample 1.15 false ] in
  current_morse_symbol st = "...." /\ decoded_message st = "".
Proof. vm_compute. split; reflexivity. Qed.

Example scenario_B :
  let st := run (initial 0 0)
              [ Sample 0.10 true; Sample 0.25 false; Sample 0.40 true;
                Sample 0.55 false; Sample 0.70 true; Sample 0.85 false;
                Sample 1.00 true; Sample 1.15 false; Sample 1.70 true ] in
  current_morse_symbol st = "" /\ decoded_message st = "H".
Proof. vm_compute. split; reflexivity. Qed.

Example scenario_C :
  let st := run (initial 0 0)
              [ Sample 0.10 true; Sample 0.25 false; Tick 1.45 ] in
  current_morse_symbol st = "" /\ decoded_message st = "E ".
Proof. vm_compute. split; reflexivity. Qed.

Example scenario_D :
  let st := run (initial 0 0)
              [ Sample 0.10 true; Sample 0.60 false; Sample 0.70 true;
                Sample 0.80 false; Reset 0.90;
                Sample 1.00 true; Sample 1.15 false ] in
  current_morse_symbol st = "." /\ decoded_message st = "".
Proof. vm_compute. split; reflexivity. Qed.

(** * The claims of the specification *)

(** C1.  Rising edge: in state 0 (signal off) a sample with the LED on is
    handled by the kind of the off duration [current_time -
    last_state_change_time].  For a word gap a non-empty symbol buffer is
    decoded, appended to the message and cleared, and then one space is
    appended exactly when the message does not already end with a space; for
    a letter gap the same flush happens and no space is appended; for no gap
    both buffers stay as they are.  In every case the state becomes 1 (signal
    on) and [last_state_change_time] becomes the sample's time. *)
Theorem rising_edge (st : decoder) (current_time : Q) :
  led_state st = 0%Z ->
  let off_duration := (current_time - last_state_change_time st)%Q in
  let flushed :=
    if truthy (current_morse_symbol st)
    then decoded_message st
         +:+ decode_morse (current_morse_symbol st) MORSE_TO_TEXT
    else decoded_message st in
  let st' := state_machine st current_time true in
  led_state st' = 1%Z
  /\ last_state_change_time st' = current_time
  /\ match classifyOffDuration off_duration with
     | WordGap =>
         current_morse_symbol st' = ""
         /\ decoded_message st'
            = (if endswith flushed " " then flushed else flushed +:+ " ")
     | LetterGap =>
         current_morse_symbol st' = "" /\ decoded_message st' = flushed
     | NoGap =>
         current_morse_symbol st' = current_morse_symbol st
         /\ decoded_message st' = decoded_message st
     end.
Proof.
  intros Hoff. cbv zeta.
  destruct (state_machine_rising st current_time Hoff) as (H1 & H2 & _ & H3).
  auto.
Qed.

Lemma rising_edge_witness :
  let st := run (initial 0 0) [Sample 0.125 true; Sample 0.25 false] in
  let st' := state_machine st 1.5 true in
  led_state st = 0%Z
  /\ led_state st' = 1%Z /\ last_state_change_time st' = 1.5%Q
  /\ current_morse_symbol st' = "" /\ decoded_message st' = "E ".
Proof.
  split; [reflexivity|].
  exact (rising_edge (run (initial 0 0) [Sample 0.125 true; Sample 0.25 false])
                     1.5 eq_refl).
Defined.

(** C2.  Starting from the initial state, after any sequence of samples,
    periodic checks and clear commands the decoded message never contains two
    space characters in a row. *)
Theorem no_consecutive_spaces (t0 t1 : Q) (evs : list event) (a b : string) :
  decoded_message (run (initial t0 t1) evs) <> a +:+ "  " +:+ b.
Proof.
  intros E.
  destruct (run_ok evs (initial t0 t1) message_ok_empty) as [Hd _].
  apply not_true_iff_false in Hd. apply Hd, double_space_iff. eauto.
Qed.

(** C3.  Falling edge: in state 1 (signal on) a sample with the LED off
    appends a dot to the symbol buffer when the on duration is below
    [DOT_DASH_THRESHOLD_S] and a dash when it is at or above it (the
    threshold itself gives a dash); the state becomes 0,
    [last_state_change_time] becomes the sample's time and the decoded
    message is unchanged. *)
Theorem falling_edge (st : decoder) (current_time : Q) :
  led_state st = 1%Z ->
  let on_duration := (current_time - last_state_change_time st)%Q in
  let st' := state_machine st current_time false in
  ((on_duration < DOT_DASH_THRESHOLD_S)%Q ->
   current_morse_symbol st' = current_morse_symbol st +:+ ".")
  /\ ((DOT_DASH_THRESHOLD_S <= on_duration)%Q ->
      current_morse_symbol st' = current_morse_symbol st +:+ "-")
  /\ current_morse_symbol st'
     = current_morse_symbol st +:+ symbol_token (classifyOnDuration on_duration)
  /\ led_state st' = 0%Z
  /\ last_state_change_time st' = current_time
  /\ decoded_message st' = decoded_message st.
Proof.
  intros Hon. cbv zeta.
  destruct (state_machine_falling st current_time Hon) as (H1 & H2 & H3 & _ & H4).
  rewrite H1.
  destruct (classifyOnDuration_cases (current_time - last_state_change_time st))
    as [[-> Hd] | [-> Hd]]; simpl; repeat split; auto; intros H; exfalso.
  - exact (Qlt_not_le _ _ Hd H).
  - exact (Qlt_not_le _ _ H Hd).
Qed.

Lemma falling_edge_witness :
  let st := state_machine (initial 0 0) 0.125 true in
  let st' := state_machine st 0.525 false in
  led_state st = 1%Z
  /\ (DOT_DASH_THRESHOLD_S <= 0.525 - last_state_change_time st)%Q
  /\ current_morse_symbol st' = "-" /\ led_state st' = 0%Z.
Proof.
  pose proof (falling_edge (state_machine (initial 0 0) 0.125 true) 0.525 eq_refl)
    as (_ & Hdash & _ & Hled & _).
  assert (Hd : (DOT_DASH_THRESHOLD_S
                <= 0.525 - last_state_change_time
                             (state_machine (initial 0 0) 0.125 true))%Q)
    by (vm_compute; discriminate).
  split; [reflexivity|]. split; [exact Hd|].
  split; [exact (Hdash Hd) | exact Hled].
Defined.

(** C4.  The periodic check at an elapsed time of exactly
    [WORD_GAP_THRESHOLD_S]: with the symbol buffer holding a dot and an empty
    message, neither the bare check nor a LED-off sample running it flushes
    or appends a space, while a rising edge after the same elapsed time does
    both. *)
Theorem watchdog_boundary :
  let st := run (initial 0 0) [Sample 0.125 true; Sample 0.25 false] in
  led_state st = 0%Z
  /\ (1.25 - last_state_change_time st == WORD_GAP_THRESHOLD_S)%Q
  /\ endswith (decoded_message st) " " = false
  /\ current_morse_symbol st = "."
  /\ decoded_message (step st (Tick 1.25)) = ""
  /\ current_morse_symbol (step st (Tick 1.25)) = "."
  /\ decoded_message (step st (Sample 1.25 false)) = ""
  /\ decoded_message (step st (Sample 1.25 true)) = "E ".
Proof. vm_compute. repeat split. Qed.

(** C5, as stated, fails: after a single dot has been received the final
    decode appends "E" and leaves the symbol buffer holding the dot, so that
    running it a second time yields "EE" instead of "E". *)
Lemma finalize_twice_differs :
  let st := run (initial 0 0) [Sample 0.125 true; Sample 0.25 false] in
  let r1 := finalize st in
  let r2 := finalize r1.1 in
  current_morse_symbol r1.1 <> "" /\ r1.2 = "E" /\ r2.2 = "EE" /\ r2.2 <> r1.2.
Proof. vm_compute. repeat split; discriminate. Qed.

(** C5, amended.  In any state reached from the initial one the final
    decode appends the decoded character of a non-empty symbol buffer to the
    message and changes nothing but the message (the symbol buffer keeps its
    content); the printed result is the message with leading and trailing
    spaces removed; and running the final decode a second time yields the
    same message exactly when the symbol buffer is empty. *)
Theorem finalize_spec (t0 t1 : Q) (evs : list event) :
  let st := run (initial t0 t1) evs in
  let st' := (finalize st).1 in
  decoded_message st'
  = (if truthy (current_morse_symbol st)
     then decoded_message st
          +:+ decode_morse (current_morse_symbol st) MORSE_TO_TEXT
     else decoded_message st)
  /\ st' = set_decoded_message (decoded_message st') st
  /\ (finalize st).2 = trim_spaces (decoded_message st')
  /\ (decoded_message (finalize st').1 = decoded_message st'
      <-> current_morse_symbol st = "").
Proof.
  intros st st'. subst st'. unfold finalize.
  pose proof (run_ok evs (initial t0 t1) message_ok_empty) as Hok. fold st in Hok.
  destruct (current_morse_symbol st) as [|a s] eqn:Hs; simpl.
  - rewrite Hs. simpl. split; [reflexivity|]. split; [now destruct st|].
    split; [apply strip_message, Hok | tauto].
  - rewrite Hs. simpl. split; [reflexivity|]. split; [reflexivity|].
    split; [apply strip_message, message_ok_decode, Hok|].
    destruct (decode_morse_char (String a s)) as (c & -> & _).
    split; [intros E; exfalso; exact (append_single_neq _ _ E) | discriminate].
Qed.

(** C6.  The branch taken on a rising edge partitions the off durations at
    the two thresholds, each threshold value belonging to the higher kind.
    For every state with the signal off and every sample time, with [d] the
    off duration: [d] classifies as no gap exactly below
    [LETTER_GAP_THRESHOLD_S], as a letter gap exactly from
    [LETTER_GAP_THRESHOLD_S] up to but excluding [WORD_GAP_THRESHOLD_S], and
    as a word gap exactly from [WORD_GAP_THRESHOLD_S] on; the state machine
    acts accordingly (buffers untouched; flush; flush and guarded space);
    and when a symbol is pending the three outcomes are distinct, so that
    the outcome observed determines the class of the duration. *)
Theorem classifyOffDuration_partition (st : decoder) (current_time : Q) :
  led_state st = 0%Z ->
  let d := (current_time - last_state_change_time st)%Q in
  let flushed :=
    if truthy (current_morse_symbol st)
    then decoded_message st
         +:+ decode_morse (current_morse_symbol st) MORSE_TO_TEXT
    else decoded_message st in
  let st' := state_machine st current_time true in
  ((classifyOffDuration d = NoGap <-> (d < LETTER_GAP_THRESHOLD_S)%Q)
   /\ (classifyOffDuration d = LetterGap
       <-> (LETTER_GAP_THRESHOLD_S <= d)%Q /\ (d < WORD_GAP_THRESHOLD_S)%Q)
   /\ (classifyOffDuration d = WordGap <-> (WORD_GAP_THRESHOLD_S <= d)%Q))
  /\ ((d < LETTER_GAP_THRESHOLD_S)%Q ->
      current_morse_symbol st' = current_morse_symbol st
      /\ decoded_message st' = decoded_message st)
  /\ ((LETTER_GAP_THRESHOLD_S <= d)%Q /\ (d < WORD_GAP_THRESHOLD_S)%Q ->
      current_morse_symbol st' = "" /\ decoded_message st' = flushed)
  /\ ((WORD_GAP_THRESHOLD_S <= d)%Q ->
      current_morse_symbol st' = ""
      /\ decoded_message st'
         = (if endswith flushed " " then flushed else flushed +:+ " "))
  /\ (current_morse_symbol st <> "" ->
      (current_morse_symbol st' = current_morse_symbol st
       <-> (d < LETTER_GAP_THRESHOLD_S)%Q)
      /\ (decoded_message st' = flushed
          <-> (LETTER_GAP_THRESHOLD_S <= d)%Q /\ (d < WORD_GAP_THRESHOLD_S)%Q)
      /\ (decoded_message st' = flushed +:+ " "
          <-> (WORD_GAP_THRESHOLD_S <= d)%Q)).
Proof.
  intros Hled. cbv zeta.
  assert (Hlw : (LETTER_GAP_THRESHOLD_S < WORD_GAP_THRESHOLD_S)%Q) by reflexivity.
  pose proof (state_machine_rising st current_time Hled) as (_ & _ & _ & H).
  set (d := (current_time - last_state_change_time st)%Q) in *.
  set (st' := state_machine st current_time true) in *.
  assert (Hcls :
    (classifyOffDuration d = NoGap <-> (d < LETTER_GAP_THRESHOLD_S)%Q)
    /\ (classifyOffDuration d = LetterGap
        <-> (LETTER_GAP_THRESHOLD_S <= d)%Q /\ (d < WORD_GAP_THRESHOLD_S)%Q)
    /\ (classifyOffDuration d = WordGap <-> (WORD_GAP_THRESHOLD_S <= d)%Q)).
  { destruct (classifyOffDuration_cases d) as [[-> K] | [[-> [K1 K2]] | [-> K]]];
      repeat split; try discriminate; auto; intros; exfalso;
      repeat match goal with K0 : _ /\ _ |- _ => destruct K0 end; lra. }
  destruct Hcls as (Cn & Cl & Cw).
  split; [exact (conj Cn (conj Cl Cw))|].
  split; [intros Hd; apply Cn in Hd; rewrite Hd in H; exact H|].
  split; [intros Hd; apply Cl in Hd; rewrite Hd in H; exact H|].
  split; [intros Hd; apply Cw in Hd; rewrite Hd in H; exact H|].
  intros Hne.
  destruct (current_morse_symbol st) as [|a s] eqn:Hs; [contradiction|].
  simpl truthy in *. cbv iota in *.
  set (p := String a s) in *.
  assert (He : endswith (decoded_message st +:+ decode_morse p MORSE_TO_TEXT) " "
               = false) by apply endswith_decode.
  rewrite He in H.
  assert (N1 : decoded_message st
               <> decoded_message st +:+ decode_morse p MORSE_TO_TEXT).
  { intros E. symmetry in E. revert E. apply append_nonempty_neq.
    destruct (decode_morse_char p) as (c & -> & _). discriminate. }
  assert (N2 : decoded_message st
               <> (decoded_message st +:+ decode_morse p MORSE_TO_TEXT) +:+ " ").
  { intros E. symmetry in E. revert E. rewrite append_assoc.
    apply append_nonempty_neq, decode_space_nonempty. }
  assert (N3 : (decoded_message st +:+ decode_morse p MORSE_TO_TEXT) +:+ " "
               <> decoded_message st +:+ decode_morse p MORSE_TO_TEXT)
    by apply append_single_neq.
  destruct (classifyOffDuration_cases d) as [[E K] | [[E [K1 K2]] | [E K]]];
    rewrite E in H; destruct H as [Hb Hm]; rewrite Hb, Hm;
    (split; [|split]); split; intros X; try reflexivity; try assumption;
    try (split; assumption); try discriminate X;
    try (exfalso; congruence);
    try (exfalso; destruct X; lra); try (exfalso; lra).
Qed.

Lemma classifyOffDuration_partition_witness :
  let st := run (initial 0 0) [Sample 0.125 true; Sample 0.25 false] in
  let st' := state_machine st 0.75 true in
  led_state st = 0%Z
  /\ (LETTER_GAP_THRESHOLD_S <= 0.75 - last_state_change_time st)%Q
  /\ (0.75 - last_state_change_time st < WORD_GAP_THRESHOLD_S)%Q
  /\ current_morse_symbol st' = "" /\ decoded_message st' = "E".
Proof.
  pose proof (classifyOffDuration_partition
                (run (initial 0 0) [Sample 0.125 true; Sample 0.25 false])
                0.75 eq_refl) as (_ & _ & Hl & _).
  assert (H1 : (LETTER_GAP_THRESHOLD_S
                <= 0.75 - last_state_change_time
                            (run (initial 0 0)
                                 [Sample 0.125 true; Sample 0.25 false]))%Q)
    by (vm_compute; discriminate).
  assert (H2 : (0.75 - last_state_change_time
                         (run (initial 0 0)
                              [Sample 0.125 true; Sample 0.25 false])
                < WORD_GAP_THRESHOLD_S)%Q)
    by (vm_compute; reflexivity).
  split; [reflexivity|]. split; [exact H1|]. split; [exact H2|].
  exact (Hl (conj H1 H2)).
Defined.

(** C7.  [decode_morse] on the table of the program is a total function
    returning exactly one character: equal patterns give equal results, each
    of the 36 standard Morse encodings of A-Z and 0-9 gives its letter or
    digit, and the empty pattern and every pattern that is not one of the 36
    give the placeholder [#]. *)
Theorem decode_morse_total :
  (forall p q : string,
      p = q -> decode_morse p MORSE_TO_TEXT = decode_morse q MORSE_TO_TEXT)
  /\ (forall p : string, exists c : ascii,
         decode_morse p MORSE_TO_TEXT = String c "")
  /\ length standard_morse = 36%nat
  /\ NoDup standard_morse.*1
  /\ Forall (fun cp : string * string =>
               decode_morse cp.2 MORSE_TO_TEXT = cp.1) standard_morse
  /\ decode_morse "" MORSE_TO_TEXT = "#"
  /\ (forall p : string,
         p ∉ standard_morse.*2 -> decode_morse p MORSE_TO_TEXT = "#").
Proof.
  split; [intros p q ->; reflexivity|].
  split; [intros p; destruct (decode_morse_char p) as (c & Hc & _); eauto|].
  split; [reflexivity|].
  split; [apply (bool_decide_unpack (NoDup _)); vm_compute; exact I|].
  split; [unfold standard_morse;
          repeat (apply Forall_cons; split; [vm_compute; reflexivity|]);
          apply Forall_nil_2|].
  split; [vm_compute; reflexivity|].
  intros p Hp. unfold decode_morse, MORSE_TO_TEXT.
  rewrite (not_elem_of_list_to_map_1 (M:=gmap string)); [reflexivity|].
  intros Hk. apply Hp.
  exact (proj1 (Forall_forall _ _) standard_patterns_cover_table _ Hk).
Qed.

(** C8, as stated, fails: besides the two buffers and the time of the last
    transition the clear key also overwrites the displayed last action, which
    is "IDLE" in the initial state and "OUTPUT CLEARED" afterwards. *)
Lemma reset_changes_display_action :
  let st := initial 0 0 in
  let st' := reset st 1 in
  ~ (current_morse_symbol st' = "" /\ decoded_message st' = ""
     /\ last_state_change_time st' = 1%Q
     /\ led_state st' = led_state st
     /\ last_print_time st' = last_print_time st
     /\ display_symbol_action st' = display_symbol_action st).
Proof. simpl. intros (_ & _ & _ & _ & _ & H). discriminate H. Qed.

(** C8, amended.  The clear key empties the symbol buffer and the decoded
    message, sets [last_state_change_time] to the current time and sets the
    displayed last action to "OUTPUT CLEARED"; nothing else changes: the
    signal state and the time of the last periodic check are as before. *)
Theorem reset_frame (st : decoder) (now : Q) :
  reset st now
  = Decoder (led_state st) "" "" now (last_print_time st) "OUTPUT CLEARED".
Proof. reflexivity. Qed.

(** C9.  A sample whose time is equal to or earlier than
    [last_state_change_time] is processed like any other (the step is a total
    function) and falls in the lowest category: the duration classifies as a
    dot and as no gap, so a falling edge appends a dot, and a rising edge
    leaves symbol buffer and message untouched (no flush, no space). *)
Theorem nonpositive_duration (st : decoder) (current_time : Q) :
  (current_time <= last_state_change_time st)%Q ->
  let d := (current_time - last_state_change_time st)%Q in
  classifyOnDuration d = Dot
  /\ classifyOffDuration d = NoGap
  /\ (led_state st = 1%Z ->
      current_morse_symbol (state_machine st current_time false)
      = current_morse_symbol st +:+ ".")
  /\ (led_state st = 0%Z ->
      current_morse_symbol (state_machine st current_time true)
      = current_morse_symbol st
      /\ decoded_message (state_machine st current_time true)
         = decoded_message st).
Proof.
  intros Hle d.
  assert (Hd : (d <= 0)%Q) by (unfold d; lra).
  assert (Hon : classifyOnDuration d = Dot).
  { destruct (classifyOnDuration_cases d) as [[H _] | [_ H]]; [exact H|].
    unfold DOT_DASH_THRESHOLD_S in H. lra. }
  assert (Hoff : classifyOffDuration d = NoGap).
  { destruct (classifyOffDuration_cases d) as [[H _] | [[_ [H _]] | [_ H]]];
      [exact H | |];
      unfold LETTER_GAP_THRESHOLD_S, WORD_GAP_THRESHOLD_S in H; lra. }
  split; [exact Hon|]. split; [exact Hoff|]. split.
  - intros Hs. destruct (state_machine_falling st current_time Hs) as (H & _).
    fold d in H. now rewrite H, Hon.
  - intros Hs.
    pose proof (state_machine_rising st current_time Hs) as (_ & _ & _ & H).
    fold d in H. rewrite Hoff in H. exact H.
Qed.

Lemma nonpositive_duration_witness :
  let st := state_machine (initial 0 0) 0.5 true in
  (0.25 <= last_state_change_time st)%Q
  /\ led_state st = 1%Z
  /\ current_morse_symbol (state_machine st 0.25 false) = ".".
Proof.
  assert (Hle : (0.25 <= last_state_change_time
                           (state_machine (initial 0 0) 0.5 true))%Q)
    by (vm_compute; discriminate).
  split; [exact Hle|]. split; [reflexivity|].
  exact (proj1 (proj2 (proj2 (nonpositive_duration _ 0.25 Hle))) eq_refl).
Defined.

(** C10.  Starting from the initial state, after any sequence of samples,
    periodic checks and clear commands every character of the decoded
    message is an uppercase letter A-Z, a digit 0-9, the placeholder [#] or a
    space. *)
Theorem message_alphabet (t0 t1 : Q) (evs : list event) (c : ascii) :
  In c (String.list_ascii_of_string (decoded_message (run (initial t0 t1) evs))) ->
  (65 <= nat_of_ascii c <= 90)%nat \/ (48 <= nat_of_ascii c <= 57)%nat
  \/ c = "#"%char \/ c = " "%char.
Proof.
  intros Hc. apply is_message_char_iff.
  destruct (run_ok evs (initial t0 t1) message_ok_empty) as [_ Ha].
  exact (proj1 (all_chars_iff _ _) Ha c Hc).
Qed.

Lemma message_alphabet_witness :
  In "E"%char
     (String.list_ascii_of_string
        (decoded_message
           (run (initial 0 0) [Sample 0.125 true; Sample 0.25 false; Tick 1.5])))
  /\ ((65 <= nat_of_ascii "E" <= 90)%nat \/ (48 <= nat_of_ascii "E" <= 57)%nat
      \/ "E"%char = "#"%char \/ "E"%char = " "%char).
Proof.
  assert (H : In "E"%char
                (String.list_ascii_of_string
                   (decoded_message
                      (run (initial 0 0)
                           [Sample 0.125 true; Sample 0.25 false; Tick 1.5]))))
    by (vm_compute; left; reflexivity).
  split; [exact H | exact (message_alphabet 0 0 _ _ H)].
Defined.

(** * Further properties of the code *)

Lemma lookup_of_decode p :
  decode_morse p MORSE_TO_TEXT <> "#" ->
  (p, decode_morse p MORSE_TO_TEXT) ∈ MORSE_TABLE_ITEMS.
Proof.
  unfold decode_morse, MORSE_TO_TEXT.
  destruct (list_to_map MORSE_TABLE_ITEMS !! p) as [v|] eqn:E; simpl.
  - intros _. now apply elem_of_list_to_map_2 in E.
  - intros H. now destruct H.
Qed.

Lemma table_values_NoDup : NoDup MORSE_TABLE_ITEMS.*2.
Proof. apply (bool_decide_unpack (NoDup _)). vm_compute. exact I. Qed.

Lemma snd_NoDup_inj {A B} (l : list (A * B)) k1 k2 v :
  NoDup l.*2 -> (k1, v) ∈ l -> (k2, v) ∈ l -> k1 = k2.
Proof.
  induction l as [|[k w] l IH]; simpl; intros Hnd H1 H2.
  - now apply elem_of_nil in H1.
  - apply NoDup_cons in Hnd as [Hw Hnd].
    apply elem_of_cons in H1 as [E1 | H1], H2 as [E2 | H2].
    + congruence.
    + exfalso. apply Hw. injection E1 as -> ->.
      apply (list_elem_of_fmap_2 snd) in H2. exact H2.
    + exfalso. apply Hw. injection E2 as -> ->.
      apply (list_elem_of_fmap_2 snd) in H1. exact H1.
    + now apply IH.
Qed.

(** X1.  The table is unambiguous: two patterns that decode to the same
    character other than the placeholder are the same pattern. *)
Theorem decode_morse_injective (p q : string) :
  decode_morse p MORSE_TO_TEXT = decode_morse q MORSE_TO_TEXT ->
  decode_morse p MORSE_TO_TEXT <> "#" ->
  p = q.
Proof.
  intros E Hp.
  pose proof (lookup_of_decode p Hp) as H1.
  assert (Hq : decode_morse q MORSE_TO_TEXT <> "#") by now rewrite <- E.
  pose proof (lookup_of_decode q Hq) as H2. rewrite <- E in H2.
  exact (snd_NoDup_inj _ _ _ _ table_values_NoDup H1 H2).
Qed.

Lemma decode_morse_injective_witness :
  decode_morse "-.-." MORSE_TO_TEXT <> "#" /\ "-.-." = "-.-.".
Proof.
  assert (H : decode_morse "-.-." MORSE_TO_TEXT <> "#")
    by (vm_compute; discriminate).
  split; [exact H | exact (decode_morse_injective "-.-." "-.-." eq_refl H)].
Defined.

Lemma table_keys_shape :
  Forall (fun kv : string * string =>
            (1 <= String.length kv.1 <= 5)%nat
            /\ all_chars is_dot_dash kv.1 = true)
         MORSE_TABLE_ITEMS.
Proof.
  unfold MORSE_TABLE_ITEMS.
  repeat (apply Forall_cons; split;
          [split; [vm_compute; split; repeat constructor | reflexivity] |]).
  apply Forall_nil_2.
Qed.

(** X2.  Only short dot-dash patterns are known: a pattern that does not
    decode to the placeholder has between one and five symbols, each a dot
    or a dash. *)
Theorem decode_morse_known_shape (p : string) :
  decode_morse p MORSE_TO_TEXT <> "#" ->
  (1 <= String.length p <= 5)%nat
  /\ forall c, In c (String.list_ascii_of_string p) ->
               c = "."%char \/ c = "-"%char.
Proof.
  intros Hp. apply lookup_of_decode in Hp.
  destruct (proj1 (Forall_forall _ _) table_keys_shape _ Hp) as [Hlen Hall].
  split; [exact Hlen|]. intros c Hc.
  pose proof (proj1 (all_chars_iff _ _) Hall c Hc) as H.
  unfold is_dot_dash in H.
  apply orb_true_iff in H as [H | H]; apply Ascii.eqb_eq in H; auto.
Qed.

Lemma decode_morse_known_shape_witness :
  decode_morse "...-" MORSE_TO_TEXT <> "#"
  /\ (1 <= String.length "...-" <= 5)%nat.
Proof.
  assert (H : decode_morse "...-" MORSE_TO_TEXT <> "#")
    by (vm_compute; discriminate).
  split; [exact H | exact (proj1 (decode_morse_known_shape "...-" H))].
Defined.

(** *** The symbol buffer holds dots and dashes only *)

Lemma state_machine_symbol_ok st t on :
  all_chars is_dot_dash (current_morse_symbol st) = true ->
  all_chars is_dot_dash (current_morse_symbol (state_machine st t on)) = true.
Proof.
  intros H. unfold state_machine, watchdog.
  repeat match goal with
         | |- context [if ?b then _ else _] => destruct b
         end; simpl; rewrite ?all_chars_app, ?H; reflexivity.
Qed.

Lemma step_symbol_ok st ev :
  all_chars is_dot_dash (current_morse_symbol st) = true ->
  all_chars is_dot_dash (current_morse_symbol (step st ev)) = true.
Proof.
  intros H. destruct ev as [t on | now | now]; simpl.
  - now apply state_machine_symbol_ok.
  - unfold watchdog.
    repeat match goal with
           | |- context [if ?b then _ else _] => destruct b
           end; simpl; rewrite ?H; reflexivity.
  - reflexivity.
Qed.

Lemma run_symbol_ok evs : forall st,
  all_chars is_dot_dash (current_morse_symbol st) = true ->
  all_chars is_dot_dash (current_morse_symbol (run st evs)) = true.
Proof.
  induction evs as [|ev evs IH]; intros st H; [exact H|].
  apply IH. now apply step_symbol_ok.
Qed.

(** X3.  From the initial state, after any sequence of samples, periodic
    checks and clear commands, the symbol buffer holds only dots and
    dashes. *)
Theorem symbol_buffer_alphabet (t0 t1 : Q) (evs : list event) (c : ascii) :
  In c (String.list_ascii_of_string
          (current_morse_symbol (run (initial t0 t1) evs))) ->
  c = "."%char \/ c = "-"%char.
Proof.
  intros Hc.
  pose proof (run_symbol_ok evs (initial t0 t1) eq_refl) as Hall.
  pose proof (proj1 (all_chars_iff _ _) Hall c Hc) as H.
  unfold is_dot_dash in H.
  apply orb_true_iff in H as [H | H]; apply Ascii.eqb_eq in H; auto.
Qed.

Lemma symbol_buffer_alphabet_witness :
  let evs := [Sample 0.125 true; Sample 0.625 false] in
  In "-"%char
     (String.list_ascii_of_string
        (current_morse_symbol (run (initial 0 0) evs)))
  /\ ("-"%char = "."%char \/ "-"%char = "-"%char).
Proof.
  assert (H : In "-"%char
                (String.list_ascii_of_string
                   (current_morse_symbol
                      (run (initial 0 0)
                           [Sample 0.125 true; Sample 0.625 false]))))
    by (vm_compute; left; reflexivity).
  split; [exact H | exact (symbol_buffer_alphabet 0 0 _ _ H)].
Defined.

(** *** The signal state follows the observations *)

Lemma run_snoc st evs ev : run st (evs ++ [ev]) = step (run st evs) ev.
Proof. unfold run. now rewrite fold_left_app. Qed.

Lemma state_machine_led st t on :
  led_state st = 0%Z \/ led_state st = 1%Z ->
  led_state (state_machine st t on) = (if on then 1 else 0)%Z.
Proof.
  intros [H | H]; destruct on; unfold state_machine, watchdog; rewrite H; simpl;
    repeat match goal with
           | |- context [if ?b then _ else _] => destruct b; simpl
           end; auto.
Qed.

Lemma step_led_range st ev :
  led_state st = 0%Z \/ led_state st = 1%Z ->
  led_state (step st ev) = 0%Z \/ led_state (step st ev) = 1%Z.
Proof.
  intros H. destruct ev as [t on | now | now]; simpl.
  - rewrite (state_machine_led st t on H). destruct on; auto.
  - destruct (led_state st =? 0)%Z eqn:E; [|exact H].
    unfold watchdog.
    repeat match goal with
           | |- context [if ?b then _ else _] => destruct b
           end; simpl; exact H.
  - exact H.
Qed.

Lemma run_led_range evs : forall st,
  led_state st = 0%Z \/ led_state st = 1%Z ->
  led_state (run st evs) = 0%Z \/ led_state (run st evs) = 1%Z.
Proof.
  induction evs as [|ev evs IH]; intros st H; [exact H|].
  apply IH. now apply step_led_range.
Qed.

(** X4.  From the initial state the signal state is always 0 or 1; after a
    sample it equals the observation of that sample (1 for LED on, 0 for
    LED off), and neither the periodic check nor the clear command changes
    it. *)
Theorem led_state_follows_sample (t0 t1 : Q) (evs : list event)
        (t : Q) (is_led_on : bool) :
  let st := run (initial t0 t1) evs in
  (led_state st = 0%Z \/ led_state st = 1%Z)
  /\ led_state (run (initial t0 t1) (evs ++ [Sample t is_led_on]))
     = (if is_led_on then 1 else 0)%Z
  /\ led_state (run (initial t0 t1) (evs ++ [Tick t])) = led_state st
  /\ led_state (run (initial t0 t1) (evs ++ [Reset t])) = led_state st.
Proof.
  intros st.
  assert (H : led_state st = 0%Z \/ led_state st = 1%Z)
    by (apply run_led_range; now left).
  split; [exact H|]. rewrite !run_snoc. fold st. split; [|split].
  - simpl. now apply state_machine_led.
  - simpl. destruct (led_state st =? 0)%Z; [|reflexivity].
    apply watchdog_spec.
  - reflexivity.
Qed.

(** *** Between two clear commands the message only grows *)

Lemma state_machine_extends st t on :
  exists suffix,
    decoded_message (state_machine st t on) = decoded_message st +:+ suffix.
Proof.
  unfold state_machine, watchdog, decode_and_clear.
  repeat match goal with
         | |- context [if ?b then _ else _] => destruct b
         end; simpl;
    try (exists ""; now rewrite append_nil_r);
    try (eexists; reflexivity);
    try (eexists; now rewrite append_assoc).
Qed.

Lemma watchdog_extends st now :
  exists suffix,
    decoded_message (watchdog st now) = decoded_message st +:+ suffix.
Proof.
  unfold watchdog, decode_and_clear.
  repeat match goal with
         | |- context [if ?b then _ else _] => destruct b
         end; simpl;
    try (exists ""; now rewrite append_nil_r);
    try (eexists; reflexivity);
    try (eexists; now rewrite append_assoc).
Qed.

(** X5.  Without a clear command the decoded message only grows: after any
    sequence of samples and periodic checks, from any state, the message is
    the earlier message followed by some suffix. *)
Theorem message_append_only (st : decoder) (evs : list event) :
  forallb (fun ev => negb (is_reset ev)) evs = true ->
  exists suffix,
    decoded_message (run st evs) = decoded_message st +:+ suffix.
Proof.
  revert st. induction evs as [|ev evs IH]; intros st H.
  - exists "". simpl. now rewrite append_nil_r.
  - simpl in H. apply andb_true_iff in H as [Hev Hevs].
    destruct (IH (step st ev) Hevs) as (s2 & E2).
    assert (exists s1, decoded_message (step st ev) = decoded_message st +:+ s1)
      as (s1 & E1).
    { destruct ev as [t on | now | now]; simpl.
      - apply state_machine_extends.
      - destruct (led_state st =? 0)%Z; [apply watchdog_extends|].
        exists "". now rewrite append_nil_r.
      - discriminate Hev. }
    exists (s1 +:+ s2). simpl. change (fold_left step evs (step st ev))
      with (run (step st ev) evs). now rewrite E2, E1, append_assoc.
Qed.

Lemma message_append_only_witness :
  let st := run (initial 0 0) [Sample 0.125 true; Sample 0.25 false; Tick 1.5] in
  let evs := [Sample 2 true; Sample 2.5 false; Sample 3.25 true] in
  forallb (fun ev => negb (is_reset ev)) evs = true
  /\ exists suffix,
       decoded_message (run st evs) = decoded_message st +:+ suffix.
Proof.
  split; [reflexivity|].
  exact (message_append_only
           (run (initial 0 0) [Sample 0.125 true; Sample 0.25 false; Tick 1.5])
           [Sample 2 true; Sample 2.5 false; Sample 3.25 true] eq_refl).
Defined.

(** *** Outcomes of the periodic check *)

Lemma watchdog_cases (st : decoder) (now : Q) :
  let st' := watchdog st now in
  led_state st' = led_state st
  /\ last_state_change_time st' = last_state_change_time st
  /\ ((current_morse_symbol st' = current_morse_symbol st
       /\ decoded_message st' = decoded_message st)
      \/ ((WORD_GAP_THRESHOLD_S < now - last_state_change_time st)%Q
          /\ endswith (decoded_message st) " " = false
          /\ current_morse_symbol st' = ""
          /\ decoded_message st' = flushed_message st +:+ " ")).
Proof.
  unfold watchdog, flushed_message. cbv zeta.
  destruct (Qlt_bool WORD_GAP_THRESHOLD_S _) eqn:Eq; simpl; [|auto].
  apply Qlt_bool_iff in Eq.
  destruct (endswith (decoded_message st) " ") eqn:Ee; simpl; [auto|].
  destruct (current_morse_symbol st) as [|a s] eqn:Hs; simpl; rewrite ?Hs;
    auto 10.
Qed.

Lemma quiet_sample st t :
  led_state st = 0%Z ->
  state_machine st t false
  = if Qlt_bool PRINT_INTERVAL (t - last_print_time st)
    then watchdog st t else st.
Proof. intros H. unfold state_machine. now rewrite H. Qed.

Lemma quiet_step_cases st ev :
  led_state st = 0%Z -> is_quiet ev = true ->
  let st' := step st ev in
  led_state st' = 0%Z
  /\ last_state_change_time st' = last_state_change_time st
  /\ ((current_morse_symbol st' = current_morse_symbol st
       /\ decoded_message st' = decoded_message st)
      \/ (endswith (decoded_message st) " " = false
          /\ current_morse_symbol st' = ""
          /\ decoded_message st' = flushed_message st +:+ " ")).
Proof.
  intros Hled Hq.
  assert (Hw : forall now,
             let st' := watchdog st now in
             led_state st' = 0%Z
             /\ last_state_change_time st' = last_state_change_time st
             /\ ((current_morse_symbol st' = current_morse_symbol st
                  /\ decoded_message st' = decoded_message st)
                 \/ (endswith (decoded_message st) " " = false
                     /\ current_morse_symbol st' = ""
                     /\ decoded_message st' = flushed_message st +:+ " "))).
  { intros now. destruct (watchdog_cases st now) as (H1 & H2 & [H3 | H3]).
    - cbv zeta. rewrite H1. auto.
    - cbv zeta. rewrite H1. split; [exact Hled|]. split; [exact H2|].
      right. tauto. }
  destruct ev as [t [] | now | now]; simpl in Hq; try discriminate; simpl.
  - rewrite (quiet_sample st t Hled).
    destruct (Qlt_bool PRINT_INTERVAL _); [apply Hw | auto].
  - rewrite Hled. simpl. apply Hw.
Qed.

Lemma endswith_flushed_space st :
  endswith (flushed_message st +:+ " ") " " = true.
Proof. apply endswith_snoc. Qed.

(** *** The periodic check fires at most once in a silence *)

(** X6.  During a silence the periodic check acts at most once: from a
    state with the signal off, any sequence of LED-off samples and periodic
    checks either leaves both buffers as they were or has flushed the
    pending symbol and appended exactly one space; the signal state and the
    time of the last transition are unchanged. *)
Theorem quiet_run_at_most_one_space (st : decoder) (evs : list event) :
  led_state st = 0%Z ->
  forallb is_quiet evs = true ->
  let st' := run st evs in
  led_state st' = 0%Z
  /\ last_state_change_time st' = last_state_change_time st
  /\ ((current_morse_symbol st' = current_morse_symbol st
       /\ decoded_message st' = decoded_message st)
      \/ (endswith (decoded_message st) " " = false
          /\ current_morse_symbol st' = ""
          /\ decoded_message st' = flushed_message st +:+ " ")).
Proof.
  intros Hled. induction evs as [|ev evs IH] using rev_ind; intros Hq.
  - simpl. auto.
  - rewrite forallb_app in Hq. apply andb_true_iff in Hq as [Hq Hev].
    simpl in Hev. rewrite andb_true_r in Hev.
    destruct (IH Hq) as (H1 & H2 & H3). cbv zeta. rewrite run_snoc.
    destruct (quiet_step_cases (run st evs) ev H1 Hev) as (K1 & K2 & K3).
    split; [exact K1|]. split; [now rewrite K2|].
    destruct H3 as [[Hb Hm] | (He & Hb & Hm)].
    + destruct K3 as [[Kb Km] | (Ke & Kb & Km)].
      * left. split; congruence.
      * right. unfold flushed_message in *. rewrite Hb, Hm in *. auto.
    + destruct K3 as [[Kb Km] | (Ke & Kb & Km)].
      * right. split; [exact He|]. split; congruence.
      * exfalso. rewrite Hm, endswith_flushed_space in Ke. discriminate.
Qed.

Lemma quiet_run_at_most_one_space_witness :
  let st := run (initial 0 0) [Sample 0.125 true; Sample 0.25 false] in
  let evs := [Tick 1.5; Sample 2.5 false; Tick 3.5; Sample 9 false] in
  led_state st = 0%Z /\ forallb is_quiet evs = true
  /\ decoded_message (run st evs) = "E ".
Proof.
  pose proof (quiet_run_at_most_one_space
                (run (initial 0 0) [Sample 0.125 true; Sample 0.25 false])
                [Tick 1.5; Sample 2.5 false; Tick 3.5; Sample 9 false]
                eq_refl eq_refl) as (_ & _ & H).
  split; [reflexivity|]. split; [reflexivity|].
  destruct H as [[_ H] | (_ & _ & H)]; [discriminate H | exact H].
Defined.

(** *** The periodic check only anticipates the next rising edge *)

(** X7.  The periodic check only anticipates the next rising edge: with the
    signal off, a rising edge that comes no earlier than a run of the check
    leaves the same symbol buffer and message, signal state and transition
    time as it would have without that run. *)
Theorem watchdog_then_rising_edge (st : decoder) (now t : Q) :
  led_state st = 0%Z ->
  (now <= t)%Q ->
  let a := state_machine (watchdog st now) t true in
  let b := state_machine st t true in
  current_morse_symbol a = current_morse_symbol b
  /\ decoded_message a = decoded_message b
  /\ led_state a = led_state b
  /\ last_state_change_time a = last_state_change_time b.
Proof.
  intros Hled Hle. cbv zeta.
  destruct (watchdog_cases st now) as (W1 & W2 & W3).
  assert (Hledw : led_state (watchdog st now) = 0%Z) by congruence.
  pose proof (state_machine_rising (watchdog st now) t Hledw) as (A1 & A2 & _ & A3).
  pose proof (state_machine_rising st t Hled) as (B1 & B2 & _ & B3).
  rewrite W2 in A3.
  split; [|split; [|split; congruence]].
  - destruct W3 as [[Wb Wm] | (Wq & We & Wb & Wm)].
    + rewrite Wb, Wm in A3.
      destruct (classifyOffDuration _); destruct A3, B3; congruence.
    + destruct (classifyOffDuration_cases (t - last_state_change_time st))
        as [[_ H] | [[_ [_ H]] | [Ec _]]];
        try (exfalso; unfold LETTER_GAP_THRESHOLD_S, WORD_GAP_THRESHOLD_S in *;
             lra).
      rewrite Ec in A3, B3. destruct A3, B3. congruence.
  - destruct W3 as [[Wb Wm] | (Wq & We & Wb & Wm)].
    + rewrite Wb, Wm in A3.
      destruct (classifyOffDuration _); destruct A3, B3; congruence.
    + destruct (classifyOffDuration_cases (t - last_state_change_time st))
        as [[_ H] | [[_ [_ H]] | [Ec _]]];
        try (exfalso; unfold LETTER_GAP_THRESHOLD_S, WORD_GAP_THRESHOLD_S in *;
             lra).
      rewrite Ec in A3, B3. destruct A3 as [_ A3], B3 as [_ B3].
      rewrite A3, B3, Wb, Wm. simpl. rewrite endswith_flushed_space.
      fold (flushed_message st).
      assert (Hf : endswith (flushed_message st) " " = false).
      { unfold flushed_message.
        destruct (truthy (current_morse_symbol st));
          [apply endswith_decode | exact We]. }
      now rewrite Hf.
Qed.

Lemma watchdog_then_rising_edge_witness :
  let st := run (initial 0 0) [Sample 0.125 true; Sample 0.25 false] in
  led_state st = 0%Z /\ (1.5 <= 2)%Q
  /\ decoded_message (state_machine (watchdog st 1.5) 2 true)
     = decoded_message (state_machine st 2 true).
Proof.
  assert (Hle : (1.5 <= 2)%Q) by (vm_compute; discriminate).
  split; [reflexivity|]. split; [exact Hle|].
  exact (proj1 (proj2 (watchdog_then_rising_edge
                         (run (initial 0 0)
                              [Sample 0.125 true; Sample 0.25 false])
                         1.5 2 eq_refl Hle))).
Defined.

(** *** A camera that never sees the LED *)

Lemma nothing_received_watchdog st now :
  nothing_received st -> nothing_received (watchdog st now).
Proof.
  intros (Hl & Hb & Hm).
  destruct (watchdog_cases st now) as (W1 & _ & [[Wb Wm] | (_ & We & Wb & Wm)]).
  - unfold nothing_received. rewrite W1, Wb, Wm. auto.
  - unfold nothing_received. rewrite W1, Wb, Wm.
    split; [exact Hl|]. split; [reflexivity|]. right.
    unfold flushed_message. rewrite Hb. simpl.
    destruct Hm as [-> | Hm]; [reflexivity|].
    rewrite Hm in We. discriminate We.
Qed.

Lemma nothing_received_dark st t :
  nothing_received st -> nothing_received (state_machine st t false).
Proof.
  intros H. rewrite (quiet_sample st t (proj1 H)).
  destruct (Qlt_bool PRINT_INTERVAL _);
    [now apply nothing_received_watchdog | exact H].
Qed.

Lemma nothing_received_reset st now :
  nothing_received st -> nothing_received (reset st now).
Proof. intros (Hl & _). unfold nothing_received. simpl. auto. Qed.

Lemma main_loop_dark frames : forall st,
  Forall (fun f => is_led_on f = false) frames ->
  nothing_received st -> nothing_received (main_loop st frames).
Proof.
  induction frames as [|f frames IH]; intros st Hf Hst; [exact Hst|].
  apply Forall_cons in Hf as [Hoff Hf]. simpl.
  destruct (ret f); simpl; [|exact Hst].
  destruct (roi_in_frame f); simpl; [|now apply IH].
  rewrite Hoff.
  pose proof (nothing_received_dark st (current_time f) Hst) as H1.
  destruct (key f =? 113)%Z; [exact H1|].
  apply IH; [exact Hf|].
  destruct (key f =? 99)%Z; [now apply nothing_received_reset | exact H1].
Qed.

Lemma dark_frames_print_nothing (t0 t1 : Q) (frames : list frame) :
  Forall (fun f => is_led_on f = false) frames ->
  let r := main_receiver t0 t1 frames in
  current_morse_symbol r.1 = ""
  /\ (decoded_message r.1 = "" \/ decoded_message r.1 = " ")
  /\ r.2 = "".
Proof.
  intros Hf. unfold main_receiver.
  assert (H0 : nothing_received (initial t0 t1))
    by (unfold nothing_received; simpl; auto).
  destruct (main_loop_dark frames (initial t0 t1) Hf H0) as (_ & Hb & Hm).
  unfold finalize. rewrite Hb. simpl.
  split; [exact Hb|]. split; [exact Hm|].
  destruct Hm as [-> | ->]; reflexivity.
Qed.

(** *** The displayed last action has no influence on decoding *)

Lemma step_core st1 st2 ev :
  core st1 = core st2 -> core (step st1 ev) = core (step st2 ev).
Proof.
  destruct st1 as [l1 b1 m1 c1 p1 a1], st2 as [l2 b2 m2 c2 p2 a2].
  unfold core. simpl. intros E. injection E as -> -> -> -> ->.
  destruct ev as [t on | now | now]; simpl; [| |reflexivity].
  - unfold state_machine, watchdog, decode_and_clear.
    destruct b2, on; simpl;
      repeat match goal with
             | |- context [if ?b then _ else _] => destruct b; simpl
             end; reflexivity.
  - unfold watchdog, decode_and_clear.
    destruct b2; simpl;
      repeat match goal with
             | |- context [if ?b then _ else _] => destruct b; simpl
             end; reflexivity.
Qed.

Lemma run_core evs : forall st1 st2,
  core st1 = core st2 -> core (run st1 evs) = core (run st2 evs).
Proof.
  induction evs as [|ev evs IH]; intros st1 st2 H; [exact H|].
  apply IH. now apply step_core.
Qed.

(** X8.  The displayed last action has no influence on decoding: changing
    it in the starting state changes nothing in the signal state, buffers
    and clocks after any sequence of events. *)
Theorem display_action_no_influence (st : decoder) (v : string)
        (evs : list event) :
  core (run (set_display_symbol_action v st) evs) = core (run st evs).
Proof. apply run_core. reflexivity. Qed.

(** *** After the clear key the decoder behaves like a fresh one *)

(** X9.  After the clear key, pressed while the signal is off, the decoder
    behaves like one started at that moment: after any further events the
    signal state, buffers and clocks equal those of a run from the initial
    state with the same clock readings. *)
Theorem reset_like_fresh (st : decoder) (now : Q) (evs : list event) :
  led_state st = 0%Z ->
  core (run (reset st now) evs)
  = core (run (initial now (last_print_time st)) evs).
Proof.
  intros Hled. apply run_core. unfold core. simpl. now rewrite Hled.
Qed.

Lemma reset_like_fresh_witness :
  let st := run (initial 0 0) [Sample 0.125 true; Sample 0.25 false] in
  let evs := [Sample 5.1 true; Sample 5.7 false; Tick 7] in
  led_state st = 0%Z
  /\ core (run (reset st 5) evs) = core (run (initial 5 (last_print_time st)) evs).
Proof.
  split; [reflexivity|].
  exact (reset_like_fresh
           (run (initial 0 0) [Sample 0.125 true; Sample 0.25 false]) 5
           [Sample 5.1 true; Sample 5.7 false; Tick 7] eq_refl).
Defined.

(** *** The detection area *)

(** X10.  A frame is processed exactly when it is at least 520 pixels high
    and 1080 pixels wide, and then the detection area lies inside the frame
    with its full size. *)
Theorem roi_in_bounds_iff (h w : Z) :
  (roi_out_of_bounds h w = false <-> (520 <= h /\ 1080 <= w)%Z)
  /\ (roi_out_of_bounds h w = false ->
      (0 <= detection_roi_y /\ detection_roi_y + ROI_H <= h
       /\ 0 <= detection_roi_x /\ detection_roi_x + ROI_W <= w)%Z).
Proof.
  unfold roi_out_of_bounds.
  rewrite orb_false_iff, !Z.gtb_ltb, !Z.ltb_ge.
  change (detection_roi_y + ROI_H)%Z with 520%Z.
  change (detection_roi_x + ROI_W)%Z with 1080%Z.
  change detection_roi_y with 420%Z. change detection_roi_x with 980%Z.
  split; [tauto|]. intros [H1 H2]. repeat split; try assumption; discriminate.
Qed.




(** *** Brightness never above the threshold *)

(** X12.  If the brightest pixel of the detection area never exceeds the
    threshold, nothing is decoded: whatever the frame sizes, keys and times,
    the symbol buffer stays empty, the message is empty or a single space,
    and the final message printed is empty. *)
Theorem below_threshold_prints_nothing (t0 t1 : Q) (caps : list capture) :
  Forall (fun c => (max_brightness c <= brightness_threshold c)%Z) caps ->
  let r := main_receiver t0 t1 (map frame_of_capture caps) in
  current_morse_symbol r.1 = ""
  /\ (decoded_message r.1 = "" \/ decoded_message r.1 = " ")
  /\ r.2 = "".
Proof.
  intros Hc. apply dark_frames_print_nothing.
  apply Forall_map. eapply Forall_impl; [exact Hc|].
  intros c H. simpl. rewrite Z.gtb_ltb. now apply Z.ltb_ge.
Qed.

Lemma below_threshold_prints_nothing_witness :
  let caps := [Capture true 720 1280 100 40 0.5 0 0;
               Capture true 720 1280 100 100 2 0 0;
               Capture true 720 1280 255 255 4 113 0] in
  Forall (fun c => (max_brightness c <= brightness_threshold c)%Z) caps
  /\ (main_receiver 0 0 (map frame_of_capture caps)).2 = "".
Proof.
  assert (H : Forall (fun c => (max_brightness c <= brightness_threshold c)%Z)
                     [Capture true 720 1280 100 40 0.5 0 0;
                      Capture true 720 1280 100 100 2 0 0;
                      Capture true 720 1280 255 255 4 113 0])
    by (repeat constructor; simpl; discriminate).
  split; [exact H|].
  exact (proj2 (proj2 (below_threshold_prints_nothing 0 0 _ H))).
Defined.

(** *** Stripping keeps a middle part of the string *)

Lemma lstrip_chars_split p s :
  exists a, s = a +:+ lstrip_chars p s /\ all_chars p a = true.
Proof.
  induction s as [|c s IH]; simpl.
  - exists "". split; reflexivity.
  - destruct (p c) eqn:Hc.
    + destruct IH as (a & E & Ha). exists (String c a). split.
      * now rewrite append_cons, <- E.
      * simpl. now rewrite Hc.
    + exists "". split; reflexivity.
Qed.

Lemma rstrip_chars_split p s :
  exists b, s = rstrip_chars p s +:+ b /\ all_chars p b = true.
Proof.
  induction s as [|c s IH]; simpl.
  - exists "". split; reflexivity.
  - destruct IH as (b & E & Hb).
    destruct (rstrip_chars p s) as [|x r] eqn:Er.
    + rewrite append_nil_l in E. subst b.
      destruct (p c) eqn:Hc.
      * exists (String c s). split; [reflexivity|]. simpl. now rewrite Hc.
      * exists s. split; [reflexivity | exact Hb].
    + exists b. split; [|exact Hb]. now rewrite append_cons, <- E.
Qed.

Lemma strip_chars_split p s :
  exists a b, s = a +:+ strip_chars p s +:+ b.
Proof.
  destruct (lstrip_chars_split p s) as (a & Ea & _).
  destruct (rstrip_chars_split p (lstrip_chars p s)) as (b & Eb & _).
  exists a, b. unfold strip_chars. now rewrite <- Eb.
Qed.

Lemma lstrip_chars_head p s c r :
  lstrip_chars p s = String c r -> p c = false.
Proof.
  induction s as [|x s IH]; simpl; [discriminate|].
  destruct (p x) eqn:Hx; [exact IH|].
  intros E. injection E as -> _. exact Hx.
Qed.

Lemma rstrip_chars_head p c s :
  p c = false -> exists r, rstrip_chars p (String c s) = String c r.
Proof.
  intros Hc. simpl. destruct (rstrip_chars p s); rewrite ?Hc; eauto.
Qed.

Lemma rstrip_chars_last p s r c :
  rstrip_chars p s = r +:+ String c "" -> p c = false.
Proof.
  revert r. induction s as [|x s IH]; intros r; simpl.
  - destruct r; discriminate.
  - destruct (rstrip_chars p s) as [|y t] eqn:Et.
    + destruct (p x) eqn:Hx; [destruct r; discriminate|].
      destruct r as [|z r]; [|destruct r; discriminate].
      rewrite append_nil_l. intros E. injection E as ->. exact Hx.
    + destruct r as [|z r]; [discriminate|].
      rewrite append_cons. intros E. injection E as _ E. exact (IH r E).
Qed.

Lemma strip_chars_head p s c r :
  strip_chars p s = String c r -> p c = false.
Proof.
  unfold strip_chars. intros E.
  destruct (lstrip_chars p s) as [|x t] eqn:El; [discriminate|].
  pose proof (lstrip_chars_head p s x t El) as Hx.
  destruct (rstrip_chars_head p x t Hx) as (r' & Er).
  rewrite Er in E. injection E as -> _. exact Hx.
Qed.

Lemma double_space_app_l s t : double_space s = true -> double_space (s +:+ t) = true.
Proof.
  intros H. apply double_space_iff in H as (a & b & ->).
  apply double_space_iff. exists a, (b +:+ t).
  now rewrite !append_assoc.
Qed.

Lemma double_space_app_r s t : double_space t = true -> double_space (s +:+ t) = true.
Proof.
  intros H. apply double_space_iff in H as (a & b & ->).
  apply double_space_iff. exists (s +:+ a), b.
  now rewrite !append_assoc.
Qed.

Lemma message_ok_strip m : message_ok m -> message_ok (strip m).
Proof.
  intros [Hd Ha]. destruct (strip_chars_split isspace m) as (a & b & E).
  fold (strip m) in E. split.
  - destruct (double_space (strip m)) eqn:Hs; [|reflexivity].
    rewrite E in Hd. rewrite double_space_app_r in Hd; [discriminate|].
    now apply double_space_app_l.
  - rewrite E, !all_chars_app in Ha.
    apply andb_true_iff in Ha as [_ Ha]. now apply andb_true_iff in Ha as [Ha _].
Qed.

(** *** The shape of the final message *)

(** X13.  The final message printed by the program consists of letters,
    digits, placeholders and spaces only, has no two spaces in a row and
    neither starts nor ends with a space. *)
Theorem final_message_shape (t0 t1 : Q) (frames : list frame) :
  let final := (main_receiver t0 t1 frames).2 in
  (forall c, In c (String.list_ascii_of_string final) ->
             (65 <= nat_of_ascii c <= 90)%nat \/ (48 <= nat_of_ascii c <= 57)%nat
             \/ c = "#"%char \/ c = " "%char)
  /\ (forall a b, final <> a +:+ "  " +:+ b)
  /\ (forall r, final <> String " " r)
  /\ (forall r, final <> r +:+ " ").
Proof.
  cbv zeta. pose proof (main_receiver_message_ok t0 t1 frames) as Hok.
  unfold main_receiver in *.
  set (st := main_loop (initial t0 t1) frames) in *.
  assert (E : (finalize st).2 = strip (decoded_message (finalize st).1))
    by reflexivity.
  rewrite E. apply message_ok_strip in Hok. destruct Hok as [Hd Ha].
  split; [|split; [|split]].
  - intros c Hc. apply is_message_char_iff.
    exact (proj1 (all_chars_iff _ _) Ha c Hc).
  - intros a b Eab. apply not_true_iff_false in Hd. apply Hd.
    apply double_space_iff. eauto.
  - intros r Er. apply strip_chars_head in Er. discriminate Er.
  - intros r Er. apply rstrip_chars_last in Er. discriminate Er.
Qed.

(** *** The message card *)

Lemma drop_chars_length k s :
  String.length (drop_chars k s) = (String.length s - k)%nat.
Proof.
  revert s. induction k as [|k IH]; intros [|c s]; simpl; auto.
Qed.

Lemma drop_chars_suffix k s : exists a, s = a +:+ drop_chars k s.
Proof.
  revert s. induction k as [|k IH]; intros s.
  - exists "". reflexivity.
  - destruct s as [|c s]; [exists ""; reflexivity|].
    destruct (IH s) as (a & E). exists (String c a). simpl.
    now rewrite append_cons, <- E.
Qed.

Lemma truthy_length s : truthy s = true <-> (1 <= String.length s)%nat.
Proof. destruct s; simpl; split; try discriminate; lia. Qed.

(** X14.  The text of the message card has between 1 and 30 characters: it
    is "..." while the stripped message is empty; otherwise it is the suffix
    of the stripped message of length min(30, its length), that is its last
    30 characters when it is longer and the whole of it when it has at most
    30 characters. *)
Theorem decoded_display_bounds (m : string) :
  (1 <= String.length (decoded_display m) <= 30)%nat
  /\ (strip m = "" -> decoded_display m = "...")
  /\ (strip m <> "" ->
      exists a, strip m = a +:+ decoded_display m
                /\ String.length (decoded_display m)
                   = Nat.min 30 (String.length (strip m)))
  /\ ((String.length (strip m) <= 30)%nat -> strip m <> "" ->
      decoded_display m = strip m).
Proof.
  unfold decoded_display.
  destruct (truthy (strip m)) eqn:Ht.
  - apply truthy_length in Ht.
    assert (Hne : strip m <> "") by (intros E; rewrite E in Ht; simpl in Ht; lia).
    destruct (30 <? String.length (strip m))%nat eqn:El.
    + apply Nat.ltb_lt in El. unfold last_chars.
      rewrite drop_chars_length.
      split; [lia|]. split; [intros E; contradiction|].
      split; [|intros H; lia].
      intros _. destruct (drop_chars_suffix (String.length (strip m) - 30)
                                            (strip m)) as (a & E).
      exists a. split; [exact E | lia].
    + apply Nat.ltb_ge in El.
      split; [lia|]. split; [intros E; contradiction|].
      split; [|reflexivity].
      intros _. exists "". split; [reflexivity | lia].
  - assert (He : strip m = "") by (destruct (strip m); [reflexivity | discriminate]).
    simpl. split; [lia|]. split; [reflexivity|].
    split; intros; contradiction.
Qed.

Example decoded_display_long :
  decoded_display " THE QUICK BROWN FOX JUMPS OVER THE LAZY DOG "
  = "WN FOX JUMPS OVER THE LAZY DOG".
Proof. vm_compute. reflexivity. Qed.

(** *** Frames between two edges *)

Lemma lit_sample st t : led_state st = 1%Z -> state_machine st t true = st.
Proof. intros H. unfold state_machine. now rewrite H. Qed.

Lemma dark_sample st t :
  led_state st = 0%Z ->
  (t - last_state_change_time st <= WORD_GAP_THRESHOLD_S)%Q ->
  decoding (state_machine st t false) = decoding st.
Proof.
  intros Hled Ht. rewrite (quiet_sample st t Hled).
  destruct (Qlt_bool PRINT_INTERVAL _); [|reflexivity].
  destruct (watchdog_spec st t) as (H1 & H2 & _ & _ & H3).
  destruct (H3 (or_introl Ht)) as [Hb Hm].
  unfold decoding. now rewrite H1, H2, Hb, Hm.
Qed.

Lemma dark_samples st offs :
  led_state st = 0%Z ->
  Forall (fun t => (t - last_state_change_time st <= WORD_GAP_THRESHOLD_S)%Q) offs ->
  decoding (run st (map (fun t => Sample t false) offs)) = decoding st.
Proof.
  revert st. induction offs as [|t offs IH]; intros st Hled Hf; [reflexivity|].
  apply Forall_cons in Hf as [Ht Hf]. simpl.
  pose proof (dark_sample st t Hled Ht) as E.
  change (fold_left step (map (fun t => Sample t false) offs)
                    (state_machine st t false))
    with (run (state_machine st t false) (map (fun t => Sample t false) offs)).
  unfold decoding in E. injection E as E1 E2 E3 E4.
  rewrite IH.
  - unfold decoding. now rewrite E1, E2, E3, E4.
  - congruence.
  - now rewrite E4.
Qed.

Lemma lit_samples st ons :
  led_state st = 1%Z -> run st (map (fun t => Sample t true) ons) = st.
Proof.
  intros Hled. induction ons as [|t ons IH]; [reflexivity|].
  simpl. now rewrite (lit_sample st t Hled).
Qed.

Lemma rising_decoding st1 st2 t :
  led_state st1 = 0%Z -> decoding st1 = decoding st2 ->
  decoding (state_machine st1 t true) = decoding (state_machine st2 t true).
Proof.
  intros Hled E. unfold decoding in E. injection E as E1 E2 E3 E4.
  assert (Hled2 : led_state st2 = 0%Z) by congruence.
  pose proof (state_machine_rising st1 t Hled) as (A1 & A2 & _ & A3).
  pose proof (state_machine_rising st2 t Hled2) as (B1 & B2 & _ & B3).
  rewrite E2, E3, E4 in A3. unfold decoding. rewrite A1, A2, B1, B2.
  destruct (classifyOffDuration _); destruct A3 as [-> ->], B3 as [-> ->];
    reflexivity.
Qed.

Lemma falling_decoding st1 st2 t :
  led_state st1 = 1%Z -> decoding st1 = decoding st2 ->
  decoding (state_machine st1 t false) = decoding (state_machine st2 t false).
Proof.
  intros Hled E. unfold decoding in E. injection E as E1 E2 E3 E4.
  assert (Hled2 : led_state st2 = 1%Z) by congruence.
  pose proof (state_machine_falling st1 t Hled) as (A1 & A2 & A3 & _ & A4).
  pose proof (state_machine_falling st2 t Hled2) as (B1 & B2 & B3 & _ & B4).
  unfold decoding. rewrite A1, A2, A3, A4, B1, B2, B3, B4. congruence.
Qed.

(** X15.  Frames between two edges do not change what is decoded: with the
    signal off, LED-off frames taken no later than
    [WORD_GAP_THRESHOLD_S] after the last transition, and LED-on frames
    during the pulse, leave the signal state, both buffers and the
    transition time after the pulse as the two edges alone produce them. *)
Theorem frames_between_edges (st : decoder) (offs ons : list Q) (tr tf : Q) :
  led_state st = 0%Z ->
  Forall (fun t => (t - last_state_change_time st <= WORD_GAP_THRESHOLD_S)%Q) offs ->
  decoding (run st (map (fun t => Sample t false) offs
                    ++ Sample tr true
                    :: map (fun t => Sample t true) ons
                    ++ [Sample tf false]))
  = decoding (run st [Sample tr true; Sample tf false]).
Proof.
  intros Hled Hf. unfold run at 1. rewrite fold_left_app.
  change (fold_left step (map (fun t => Sample t false) offs) st)
    with (run st (map (fun t => Sample t false) offs)).
  pose proof (dark_samples st offs Hled Hf) as E.
  set (st1 := run st (map (fun t => Sample t false) offs)) in *.
  assert (Hled1 : led_state st1 = 0%Z)
    by (unfold decoding in E; injection E as E1 _ _ _; congruence).
  simpl. rewrite fold_left_app.
  pose proof (rising_decoding st1 st tr Hled1 E) as Er.
  assert (Hr : led_state (state_machine st1 tr true) = 1%Z)
    by apply (state_machine_rising st1 tr Hled1).
  change (fold_left step (map (fun t => Sample t true) ons)
                    (state_machine st1 tr true))
    with (run (state_machine st1 tr true) (map (fun t => Sample t true) ons)).
  rewrite (lit_samples _ ons Hr). simpl.
  now apply falling_decoding.
Qed.

Lemma frames_between_edges_witness :
  let offs := [0.25; 0.5; 0.75]%Q in
  Forall (fun t => (t - last_state_change_time (initial 0 0)
                    <= WORD_GAP_THRESHOLD_S)%Q) offs
  /\ decoding (run (initial 0 0)
                   (map (fun t => Sample t false) offs
                    ++ Sample 0.875 true
                    :: map (fun t => Sample t true) [1; 1.125]%Q
                    ++ [Sample 1.5 false]))
     = decoding (run (initial 0 0) [Sample 0.875 true; Sample 1.5 false]).
Proof.
  assert (H : Forall (fun t => (t - last_state_change_time (initial 0 0)
                                <= WORD_GAP_THRESHOLD_S)%Q)
                     [0.25; 0.5; 0.75]%Q)
    by (repeat constructor; vm_compute; discriminate).
  split; [exact H|].
  exact (frames_between_edges (initial 0 0) _ [1; 1.125]%Q 0.875 1.5 eq_refl H).
Defined.

Lemma gap_is_iff k g : gap_is k g = true <-> classifyOffDuration g = k.
Proof.
  unfold gap_is. destruct (classifyOffDuration g), k; split;
    try discriminate; reflexivity.
Qed.

Lemma run_app st evs1 evs2 : run st (evs1 ++ evs2) = run (run st evs1) evs2.
Proof. unfold run. apply fold_left_app. Qed.

(** *** Frames and the events they amount to *)

Lemma events_of_samples ts on rest :
  events_of (map (fun t => sample_frame t on) ts ++ rest)
  = (map (fun t => Sample t on) ts ++ events_of rest)%list.
Proof.
  induction ts as [|t ts IH]; [reflexivity|].
  simpl. now rewrite IH.
Qed.

Lemma events_of_pulse p rest :
  events_of (pulse_frames p ++ rest) = (pulse_events p ++ events_of rest)%list.
Proof.
  unfold pulse_frames, pulse_events.
  rewrite <- !app_assoc, events_of_samples. f_equal.
  rewrite <- !app_comm_cons.
  change (events_of (sample_frame (rise p) true
                     :: (map (fun t => sample_frame t true) (on_frames p)
                         ++ [sample_frame (fall p) false]) ++ rest))
    with (Sample (rise p) true
          :: events_of ((map (fun t => sample_frame t true) (on_frames p)
                         ++ [sample_frame (fall p) false]) ++ rest)).
  f_equal. rewrite <- !app_assoc, events_of_samples. reflexivity.
Qed.

Lemma events_of_quit trailing tq :
  events_of (quit_frames trailing tq)
  = (map (fun t => Sample t false) trailing ++ [Sample tq false])%list.
Proof. unfold quit_frames. now rewrite events_of_samples. Qed.

(** *** LED-off frames before a rising edge *)

Lemma dark_frames_before st offs tr :
  led_state st = 0%Z ->
  Forall (fun t => (t <= tr)%Q) offs ->
  let st1 := run st (map (fun t => Sample t false) offs) in
  led_state st1 = 0%Z
  /\ last_state_change_time st1 = last_state_change_time st
  /\ ((current_morse_symbol st1 = current_morse_symbol st
       /\ decoded_message st1 = decoded_message st)
      \/ ((WORD_GAP_THRESHOLD_S < tr - last_state_change_time st)%Q
          /\ endswith (decoded_message st) " " = false
          /\ current_morse_symbol st1 = ""
          /\ decoded_message st1 = flushed_message st +:+ " ")).
Proof.
  intros Hled. induction offs as [|t offs IH] using rev_ind; intros Hf.
  - simpl. auto.
  - apply Forall_app in Hf as [Hf Ht]. apply Forall_cons in Ht as [Ht _].
    destruct (IH Hf) as (H1 & H2 & H3). cbv zeta.
    rewrite map_app, run_app. simpl.
    set (st1 := run st (map (fun t => Sample t false) offs)) in *.
    rewrite (quiet_sample st1 t H1).
    destruct (Qlt_bool PRINT_INTERVAL _); [|auto].
    destruct (watchdog_cases st1 t) as (W1 & W2 & W3).
    split; [congruence|]. split; [congruence|].
    destruct H3 as [[Hb Hm] | (Hq & He & Hb & Hm)].
    + destruct W3 as [[Wb Wm] | (Wq & We & Wb & Wm)].
      * left. split; congruence.
      * right. rewrite H2 in Wq. rewrite Hm in We.
        unfold flushed_message in *. rewrite Hb, Hm in Wm.
        split; [lra|]. auto.
    + destruct W3 as [[Wb Wm] | (Wq & We & Wb & Wm)].
      * right. split; [exact Hq|]. split; [exact He|]. split; congruence.
      * exfalso. rewrite Hm, endswith_snoc in We. discriminate We.
Qed.

Lemma dark_then_rising st offs tr :
  led_state st = 0%Z ->
  Forall (fun t => (t <= tr)%Q) offs ->
  decoding (state_machine (run st (map (fun t => Sample t false) offs)) tr true)
  = decoding (state_machine st tr true).
Proof.
  intros Hled Hf.
  destruct (dark_frames_before st offs tr Hled Hf) as (H1 & H2 & H3).
  set (st1 := run st (map (fun t => Sample t false) offs)) in *.
  destruct H3 as [[Hb Hm] | (Hq & He & Hb & Hm)].
  - apply rising_decoding; [exact H1|]. unfold decoding. congruence.
  - pose proof (state_machine_rising st1 tr H1) as (A1 & A2 & _ & A3).
    pose proof (state_machine_rising st tr Hled) as (B1 & B2 & _ & B3).
    rewrite H2 in A3.
    destruct (classifyOffDuration_cases (tr - last_state_change_time st))
      as [[_ H] | [[_ [_ H]] | [Ec _]]];
      try (exfalso; unfold LETTER_GAP_THRESHOLD_S, WORD_GAP_THRESHOLD_S in *;
           lra).
    rewrite Ec in A3, B3. destruct A3 as [Ab Am], B3 as [Bb Bm].
    unfold decoding. rewrite A1, A2, B1, B2, Ab, Bb, Am, Bm, Hb, Hm.
    simpl truthy. cbv iota. rewrite endswith_snoc. simpl.
    fold (flushed_message st).
    assert (Hfl : endswith (flushed_message st) " " = false).
    { unfold flushed_message.
      destruct (truthy (current_morse_symbol st));
        [apply endswith_decode | exact He]. }
    now rewrite Hfl.
Qed.

(** *** One pulse with all its frames *)

Lemma pulse_played st p :
  led_state st = 0%Z ->
  frames_in_gap p = true ->
  let st' := run st (pulse_events p) in
  let tok := symbol_token (classifyOnDuration (fall p - rise p)) in
  led_state st' = 0%Z
  /\ last_state_change_time st' = fall p
  /\ match classifyOffDuration (rise p - last_state_change_time st) with
     | NoGap => current_morse_symbol st' = current_morse_symbol st +:+ tok
                /\ decoded_message st' = decoded_message st
     | LetterGap => current_morse_symbol st' = tok
                    /\ decoded_message st' = flushed_message st
     | WordGap => current_morse_symbol st' = tok
                  /\ decoded_message st'
                     = (if endswith (flushed_message st) " "
                        then flushed_message st
                        else flushed_message st +:+ " ")
     end.
Proof.
  intros Hled Hf. unfold pulse_events. cbv zeta.
  assert (Hf' : Forall (fun t => (t <= rise p)%Q) (off_frames p)).
  { apply Forall_forall. intros t Ht. unfold frames_in_gap in Hf.
    rewrite forallb_forall in Hf. apply Qle_bool_iff, Hf.
    now apply list_elem_of_In. }
  rewrite run_app.
  set (st1 := run st (map (fun t => Sample t false) (off_frames p))).
  pose proof (dark_then_rising st (off_frames p) (rise p) Hled Hf') as Er.
  fold st1 in Er.
  destruct (dark_frames_before st (off_frames p) (rise p) Hled Hf') as (L1 & _).
  fold st1 in L1.
  change (run st1 (Sample (rise p) true
                   :: map (fun t => Sample t true) (on_frames p)
                   ++ [Sample (fall p) false]))
    with (run (state_machine st1 (rise p) true)
              (map (fun t => Sample t true) (on_frames p)
               ++ [Sample (fall p) false])).
  assert (Hr1 : led_state (state_machine st1 (rise p) true) = 1%Z)
    by apply (state_machine_rising st1 (rise p) L1).
  rewrite run_app, (lit_samples _ (on_frames p) Hr1). simpl.
  pose proof (falling_decoding _ _ (fall p) Hr1 Er) as Ef.
  pose proof (state_machine_rising st (rise p) Hled) as (A1 & A2 & _ & A3).
  pose proof (state_machine_falling (state_machine st (rise p) true)
                                    (fall p) A1) as (B1 & B2 & B3 & _ & B4).
  rewrite A2 in B1. fold (flushed_message st) in A3.
  unfold decoding in Ef. injection Ef as E1 E2 E3 E4.
  rewrite E1, E2, E3, E4, B1, B2, B3, B4.
  split; [reflexivity|]. split; [reflexivity|].
  destruct (classifyOffDuration _); destruct A3 as [-> ->]; auto.
Qed.

(** *** LED-off frames after the last pulse *)

Lemma dark_frames_after st ts :
  led_state st = 0%Z ->
  let st1 := run st (map (fun t => Sample t false) ts) in
  flushed_message st1 = flushed_message st
  \/ flushed_message st1 = flushed_message st +:+ " ".
Proof.
  intros Hled. cbv zeta.
  assert (H : let st1 := run st (map (fun t => Sample t false) ts) in
              led_state st1 = 0%Z
              /\ ((current_morse_symbol st1 = current_morse_symbol st
                   /\ decoded_message st1 = decoded_message st)
                  \/ (current_morse_symbol st1 = ""
                      /\ decoded_message st1 = flushed_message st +:+ " "))).
  { induction ts as [|t ts IH] using rev_ind; [simpl; auto|].
    destruct IH as (H1 & H3). cbv zeta. rewrite map_app, run_app.
    set (st1 := run st (map (fun t => Sample t false) ts)) in *.
    change (run st1 (map (fun t => Sample t false) [t]))
      with (step st1 (Sample t false)).
    destruct (quiet_step_cases st1 (Sample t false) H1 eq_refl)
      as (K1 & _ & K3).
    split; [exact K1|].
    destruct H3 as [[Hb Hm] | [Hb Hm]].
    - destruct K3 as [[Kb Km] | (_ & Kb & Km)].
      + left. split; congruence.
      + right. unfold flushed_message in *. rewrite Hb, Hm in Km. auto.
    - destruct K3 as [[Kb Km] | (Ke & Kb & Km)].
      + right. split; congruence.
      + exfalso. rewrite Hm, endswith_snoc in Ke. discriminate Ke. }
  destruct H as (_ & [[Hb Hm] | [Hb Hm]]).
  - left. unfold flushed_message. now rewrite Hb, Hm.
  - right. unfold flushed_message at 1. now rewrite Hb, Hm.
Qed.

Lemma play_cons st p ps : play st (p :: ps) = play (run st (pulse_events p)) ps.
Proof. unfold play. simpl. apply run_app. Qed.

Lemma play_app st ps1 ps2 : play st (ps1 ++ ps2) = play (play st ps1) ps2.
Proof. unfold play. now rewrite map_app, concat_app, run_app. Qed.

Lemma last_fall_app prev ps1 ps2 :
  last_fall prev (ps1 ++ ps2) = last_fall (last_fall prev ps1) ps2.
Proof. unfold last_fall. apply fold_left_app. Qed.

Lemma within_letter ps : forall st,
  led_state st = 0%Z ->
  symbols_timed (last_state_change_time st) ps = true ->
  let st' := play st ps in
  led_state st' = 0%Z
  /\ last_state_change_time st' = last_fall (last_state_change_time st) ps
  /\ current_morse_symbol st' = current_morse_symbol st +:+ pattern_of ps
  /\ decoded_message st' = decoded_message st.
Proof.
  induction ps as [|p ps IH]; intros st Hled Hf.
  - simpl. now rewrite append_nil_r.
  - simpl in Hf. apply andb_true_iff in Hf as [Hf Hrest].
    apply andb_true_iff in Hf as [Hfr Hg]. apply gap_is_iff in Hg.
    rewrite play_cons.
    pose proof (pulse_played st p Hled Hfr) as (P1 & P2 & P3).
    rewrite Hg in P3. destruct P3 as [Pb Pm].
    rewrite <- P2 in Hrest.
    destruct (IH _ P1 Hrest) as (I1 & I2 & I3 & I4).
    cbv zeta. split; [exact I1|]. split; [now rewrite I2, P2|]. split.
    + rewrite I3, Pb. simpl. now rewrite append_assoc.
    + now rewrite I4.
Qed.

Lemma truthy_token_app s x : truthy (symbol_token s +:+ x) = true.
Proof. destruct s; reflexivity. Qed.

Lemma letter_keyed st p ps :
  led_state st = 0%Z ->
  frames_in_gap p = true ->
  symbols_timed (fall p) ps = true ->
  (classifyOffDuration (rise p - last_state_change_time st) = NoGap ->
   current_morse_symbol st = "") ->
  let st' := play st (p :: ps) in
  led_state st' = 0%Z
  /\ last_state_change_time st'
     = last_fall (last_state_change_time st) (p :: ps)
  /\ flushed_message st'
     = (flushed_message st
        +:+ lead_space st (rise p - last_state_change_time st))
       +:+ decode_morse (pattern_of (p :: ps)) MORSE_TO_TEXT.
Proof.
  intros Hled Hfr Hrest Hno. rewrite play_cons.
  pose proof (pulse_played st p Hled Hfr) as (P1 & P2 & P3).
  rewrite <- P2 in Hrest.
  destruct (within_letter ps _ P1 Hrest) as (I1 & I2 & I3 & I4).
  cbv zeta. split; [exact I1|]. split; [now rewrite I2, P2|].
  set (g := (rise p - last_state_change_time st)%Q) in *.
  set (st1 := run st (pulse_events p)) in *.
  assert (Hb : current_morse_symbol (play st1 ps) = pattern_of (p :: ps)
               /\ decoded_message (play st1 ps)
                  = flushed_message st +:+ lead_space st g).
  { rewrite I3, I4. unfold lead_space. simpl pattern_of.
    destruct (classifyOffDuration g) eqn:Eg; destruct P3 as [Pb Pm].
    - rewrite Pb, Pm, (Hno eq_refl). unfold flushed_message.
      rewrite (Hno eq_refl). simpl. now rewrite append_nil_r.
    - rewrite Pb, Pm. now rewrite append_nil_r.
    - rewrite Pb, Pm. split; [reflexivity|].
      destruct (endswith (flushed_message st) " "); [|reflexivity].
      now rewrite append_nil_r. }
  destruct Hb as [Hb Hm]. unfold flushed_message at 1.
  rewrite Hb, Hm. simpl pattern_of. now rewrite truthy_token_app.
Qed.

Lemma decode_letters_last patterns : forall y,
  patterns <> [] ->
  exists r c, y +:+ decode_letters patterns = r +:+ String c ""
              /\ is_table_char c = true.
Proof.
  induction patterns as [|p ps IH]; intros y Hne; [contradiction|].
  simpl. destruct ps as [|q ps].
  - simpl. rewrite append_nil_r.
    destruct (decode_morse_char p) as (c & -> & Hc). eauto.
  - rewrite <- append_assoc. apply IH. discriminate.
Qed.

Lemma decode_letters_first p ps :
  exists c r, decode_letters (p :: ps) = String c r /\ is_table_char c = true.
Proof.
  simpl. destruct (decode_morse_char p) as (c & -> & Hc).
  exists c, (decode_letters ps). split; [reflexivity | exact Hc].
Qed.

Lemma endswith_table_char r c :
  is_table_char c = true -> endswith (r +:+ String c "") " " = false.
Proof. intros H. rewrite endswith_snoc. now apply table_char_not_space. Qed.

Lemma letters_keyed ls : forall st,
  led_state st = 0%Z ->
  letters_timed (last_state_change_time st) ls = true ->
  let st' := play st (concat ls) in
  led_state st' = 0%Z
  /\ last_state_change_time st'
     = last_fall (last_state_change_time st) (concat ls)
  /\ flushed_message st'
     = flushed_message st +:+ decode_letters (map pattern_of ls).
Proof.
  induction ls as [|l ls IH]; intros st Hled Hf.
  - simpl. now rewrite append_nil_r.
  - simpl in Hf. apply andb_true_iff in Hf as [Hl Hf].
    destruct l as [|p ps]; [discriminate|].
    simpl in Hl. apply andb_true_iff in Hl as [Hl Hrest].
    apply andb_true_iff in Hl as [Hfr Hg]. apply gap_is_iff in Hg.
    assert (Hno : classifyOffDuration (rise p - last_state_change_time st)
                  = NoGap -> current_morse_symbol st = "")
      by (rewrite Hg; discriminate).
    destruct (letter_keyed st p ps Hled Hfr Hrest Hno) as (L1 & L2 & L3).
    change (concat ((p :: ps) :: ls)) with ((p :: ps) ++ concat ls)%list.
    rewrite play_app, last_fall_app. rewrite <- L2 in Hf.
    destruct (IH _ L1 Hf) as (I1 & I2 & I3). cbv zeta.
    split; [exact I1|]. split; [now rewrite I2, L2|].
    rewrite I3, L3. unfold lead_space. rewrite Hg, append_nil_r.
    simpl. now rewrite append_assoc.
Qed.

Lemma word_keyed st p ps ls :
  led_state st = 0%Z ->
  frames_in_gap p = true ->
  symbols_timed (fall p) ps = true ->
  letters_timed (last_fall (last_state_change_time st) (p :: ps)) ls = true ->
  (classifyOffDuration (rise p - last_state_change_time st) = NoGap ->
   current_morse_symbol st = "") ->
  let word := (p :: ps) :: ls in
  let st' := play st (concat word) in
  led_state st' = 0%Z
  /\ last_state_change_time st'
     = last_fall (last_state_change_time st) (concat word)
  /\ flushed_message st'
     = (flushed_message st
        +:+ lead_space st (rise p - last_state_change_time st))
       +:+ decode_letters (map pattern_of word).
Proof.
  intros Hled Hfr Hrest Hls Hno. cbv zeta.
  change (concat ((p :: ps) :: ls)) with ((p :: ps) ++ concat ls)%list.
  rewrite play_app, last_fall_app.
  destruct (letter_keyed st p ps Hled Hfr Hrest Hno) as (L1 & L2 & L3).
  rewrite <- L2 in Hls.
  destruct (letters_keyed ls _ L1 Hls) as (I1 & I2 & I3).
  split; [exact I1|]. split; [now rewrite I2, L2|]. rewrite I3, L3.
  simpl. now rewrite append_assoc.
Qed.

Lemma words_keyed ws : forall st,
  led_state st = 0%Z ->
  endswith (flushed_message st) " " = false ->
  words_timed (last_state_change_time st) ws = true ->
  let st' := play st (concat (concat ws)) in
  led_state st' = 0%Z
  /\ flushed_message st'
     = flushed_message st
       +:+ spaced (map (fun w => decode_letters (map pattern_of w)) ws).
Proof.
  induction ws as [|w ws IH]; intros st Hled Hclean Hf.
  - simpl. now rewrite append_nil_r.
  - simpl in Hf. apply andb_true_iff in Hf as [Hw Hf].
    destruct w as [|l ls]; [discriminate|].
    simpl in Hw. apply andb_true_iff in Hw as [Hl Hls].
    destruct l as [|p ps]; [discriminate|].
    simpl in Hl. apply andb_true_iff in Hl as [Hl Hrest].
    apply andb_true_iff in Hl as [Hfr Hg]. apply gap_is_iff in Hg.
    assert (Hno : classifyOffDuration (rise p - last_state_change_time st)
                  = NoGap -> current_morse_symbol st = "")
      by (rewrite Hg; discriminate).
    destruct (word_keyed st p ps ls Hled Hfr Hrest Hls Hno) as (W1 & W2 & W3).
    assert (Ec : concat (concat (((p :: ps) :: ls) :: ws))
                 = (concat ((p :: ps) :: ls) ++ concat (concat ws))%list)
      by (cbn [concat]; apply concat_app).
    rewrite Ec, play_app.
    set (st1 := play st (concat ((p :: ps) :: ls))) in *.
    assert (Hc1 : endswith (flushed_message st1) " " = false).
    { rewrite W3.
      destruct (decode_letters_last (map pattern_of ((p :: ps) :: ls))
                  (flushed_message st
                   +:+ lead_space st (rise p - last_state_change_time st)))
        as (r & c & -> & Hc); [discriminate|].
      now apply endswith_table_char. }
    rewrite <- W2 in Hf.
    destruct (IH _ W1 Hc1 Hf) as [I1 I2]. cbv zeta. split; [exact I1|].
    rewrite I2, W3. unfold lead_space. rewrite Hg, Hclean.
    simpl. now rewrite !append_assoc.
Qed.

Lemma finalize_flushed st : (finalize st).2 = strip (flushed_message st).
Proof.
  unfold finalize, flushed_message.
  destruct (truthy (current_morse_symbol st)); reflexivity.
Qed.

Lemma concat_spaced x l : String.concat " " (x :: l) = x +:+ spaced l.
Proof.
  revert x. induction l as [|y l IH]; intros x.
  - simpl. now rewrite append_nil_r.
  - change (String.concat " " (x :: y :: l))
      with (x +:+ " " +:+ String.concat " " (y :: l)).
    now rewrite IH.
Qed.

Lemma table_char_not_isspace c : is_table_char c = true -> isspace c = false.
Proof.
  intros H. rewrite message_char_isspace.
  - now apply table_char_not_space.
  - unfold is_message_char. now rewrite H.
Qed.

Lemma rstrip_chars_clean p r c :
  p c = false -> rstrip_chars p (r +:+ String c "") = r +:+ String c "".
Proof.
  intros Hc. induction r as [|x r IH].
  - simpl. now rewrite Hc.
  - rewrite append_cons. simpl. rewrite IH.
    destruct r; reflexivity.
Qed.

Lemma lstrip_chars_pad p a s :
  all_chars p a = true -> lstrip_chars p (a +:+ s) = lstrip_chars p s.
Proof.
  induction a as [|x a IH]; [reflexivity|].
  intros H. simpl in H. apply andb_true_iff in H as [Hx Ha].
  rewrite append_cons. simpl. rewrite Hx. now apply IH.
Qed.

Lemma rstrip_chars_all p b : all_chars p b = true -> rstrip_chars p b = "".
Proof.
  induction b as [|x b IH]; [reflexivity|].
  simpl. intros H. apply andb_true_iff in H as [Hx Hb].
  now rewrite (IH Hb), Hx.
Qed.

Lemma rstrip_chars_pad p s b :
  all_chars p b = true -> rstrip_chars p (s +:+ b) = rstrip_chars p s.
Proof.
  intros Hb. induction s as [|x s IH].
  - rewrite append_nil_l. now apply rstrip_chars_all.
  - rewrite append_cons. simpl. now rewrite IH.
Qed.

Lemma strip_padded body c r c' r' a b :
  body = String c r -> body = r' +:+ String c' "" ->
  isspace c = false -> isspace c' = false ->
  all_chars isspace a = true -> all_chars isspace b = true ->
  strip (a +:+ body +:+ b) = body.
Proof.
  intros E1 E2 Hc Hc' Ha Hb. unfold strip, strip_chars.
  rewrite (lstrip_chars_pad _ _ _ Ha).
  assert (El : lstrip_chars isspace (body +:+ b) = body +:+ b).
  { rewrite E1, append_cons. simpl. now rewrite Hc. }
  rewrite El, (rstrip_chars_pad _ _ _ Hb), E2.
  now apply rstrip_chars_clean.
Qed.

Lemma spaced_last l : forall y,
  Forall (fun x => exists r c, x = r +:+ String c "" /\ is_table_char c = true) l ->
  l <> [] ->
  exists r c, y +:+ spaced l = r +:+ String c "" /\ is_table_char c = true.
Proof.
  induction l as [|x l IH]; intros y Hf Hne; [contradiction|].
  apply Forall_cons in Hf as [(r & c & -> & Hc) Hf]. simpl.
  destruct l as [|x' l].
  - simpl. rewrite append_nil_r. exists (y +:+ " " +:+ r), c.
    split; [now rewrite !append_assoc | exact Hc].
  - rewrite <- !append_assoc. apply IH; [exact Hf | discriminate].
Qed.

Lemma word_text_shape (w : list (list keyed_pulse)) :
  w <> [] ->
  (exists c r, decode_letters (map pattern_of w) = String c r
               /\ is_table_char c = true)
  /\ (exists r c, decode_letters (map pattern_of w) = r +:+ String c ""
                  /\ is_table_char c = true).
Proof.
  intros Hne. destruct w as [|l ls]; [contradiction|]. split.
  - apply decode_letters_first.
  - destruct (decode_letters_last (map pattern_of (l :: ls)) "")
      as (r & c & E & Hc); [discriminate|].
    rewrite append_nil_l in E. eauto.
Qed.

Lemma word_timed_nonempty first prev w : word_timed first prev w = true -> w <> [].
Proof. destruct w; discriminate. Qed.

Lemma words_timed_nonempty ws : forall prev,
  words_timed prev ws = true -> Forall (fun w => w <> []) ws.
Proof.
  induction ws as [|w ws IH]; intros prev H; [constructor|].
  simpl in H. apply andb_true_iff in H as [Hw Hws].
  constructor; [now apply word_timed_nonempty in Hw | now apply (IH _ Hws)].
Qed.

Lemma events_of_signal ps rest :
  events_of (concat (map pulse_frames ps) ++ rest)
  = (concat (map pulse_events ps) ++ events_of rest)%list.
Proof.
  induction ps as [|p ps IH]; [reflexivity|].
  simpl. now rewrite <- !app_assoc, events_of_pulse, IH.
Qed.

(** The text in the decoder after a well-timed signal: the pending symbol
    counted in, possibly after one leading space. *)
Lemma timed_text_flushed (t0 t1 : Q) (text : list (list (list keyed_pulse))) :
  text_timed t0 text = true ->
  let st := play (initial t0 t1) (concat (concat text)) in
  led_state st = 0%Z
  /\ (text = [] -> flushed_message st = "")
  /\ (text <> [] ->
      exists a c r c' r',
        flushed_message st = a +:+ text_of text
        /\ all_chars isspace a = true
        /\ text_of text = String c r /\ isspace c = false
        /\ text_of text = r' +:+ String c' "" /\ isspace c' = false).
Proof.
  intros Ht. cbv zeta. unfold text_of.
  destruct text as [|w ws].
  { split; [reflexivity|]. split; [reflexivity | intros H; contradiction]. }
  simpl in Ht. apply andb_true_iff in Ht as [Hw Hws].
  pose proof (word_timed_nonempty _ _ _ Hw) as Hwne.
  pose proof (words_timed_nonempty _ _ Hws) as Hwsne.
  destruct w as [|l ls]; [discriminate|].
  simpl in Hw. apply andb_true_iff in Hw as [Hl Hls].
  destruct l as [|p ps]; [discriminate|].
  simpl in Hl. apply andb_true_iff in Hl as [Hl Hrest].
  apply andb_true_iff in Hl as [Hfr _].
  assert (Ec : concat (concat (((p :: ps) :: ls) :: ws))
               = (concat ((p :: ps) :: ls) ++ concat (concat ws))%list)
    by (cbn [concat]; apply concat_app).
  rewrite Ec, play_app.
  destruct (word_keyed (initial t0 t1) p ps ls eq_refl Hfr Hrest Hls
                       (fun _ => eq_refl)) as (W1 & W2 & W3).
  set (w := (p :: ps) :: ls) in *.
  set (st1 := play (initial t0 t1) (concat w)) in *.
  destruct (word_text_shape w Hwne) as [(c & r & Ef & Hc) (r' & c' & El & Hc')].
  assert (Hclean : endswith (flushed_message st1) " " = false).
  { rewrite W3, El, <- append_assoc. now apply endswith_table_char. }
  change (last_state_change_time (initial t0 t1)) with t0 in W2.
  rewrite <- W2 in Hws.
  destruct (words_keyed ws st1 W1 Hclean Hws) as [T1 T2].
  split; [exact T1|]. split; [discriminate|]. intros _.
  change (map (fun w0 => decode_letters (map pattern_of w0)) (w :: ws))
    with (decode_letters (map pattern_of w)
          :: map (fun w0 => decode_letters (map pattern_of w0)) ws).
  rewrite concat_spaced.
  set (tail := spaced (map (fun w0 => decode_letters (map pattern_of w0)) ws)).
  assert (Hlast : exists r0 c0,
             decode_letters (map pattern_of w) +:+ tail = r0 +:+ String c0 ""
             /\ is_table_char c0 = true).
  { unfold tail. destruct ws as [|w' ws'].
    - simpl. rewrite append_nil_r. eauto.
    - apply spaced_last; [|discriminate].
      apply Forall_forall. intros x Hx.
      apply list_elem_of_fmap in Hx as (w0 & -> & Hw0).
      apply word_text_shape.
      exact (proj1 (Forall_forall _ _) Hwsne w0 Hw0). }
  destruct Hlast as (r1 & c1 & E1 & Hc1).
  exists (lead_space (initial t0 t1) (rise p - t0)), c, (r +:+ tail), c1, r1.
  split; [|split; [|split; [|split; [|split]]]].
  - rewrite T2, W3. change (flushed_message (initial t0 t1)) with "".
    change (last_state_change_time (initial t0 t1)) with t0.
    now rewrite append_nil_l, append_assoc.
  - unfold lead_space. change (flushed_message (initial t0 t1)) with "".
    destruct (classifyOffDuration _); reflexivity.
  - now rewrite Ef.
  - now apply table_char_not_isspace.
  - exact E1.
  - now apply table_char_not_isspace.
Qed.

Lemma timed_signal_printed (t0 t1 : Q) (text : list (list (list keyed_pulse)))
      (trailing : list Q) (quit_time : Q) :
  text_timed t0 text = true ->
  (main_receiver t0 t1 (signal_frames text ++ quit_frames trailing quit_time)).2
  = text_of text.
Proof.
  intros Ht. unfold main_receiver, signal_frames.
  rewrite main_loop_run, events_of_signal, events_of_quit, run_app.
  fold (play (initial t0 t1) (concat (concat text))).
  destruct (timed_text_flushed t0 t1 text Ht) as (Hled & Hnil & Hcons).
  set (st := play (initial t0 t1) (concat (concat text))) in *.
  change (map (fun t => Sample t false) trailing ++ [Sample quit_time false])%list
    with (map (fun t => Sample t false) trailing
          ++ map (fun t => Sample t false) [quit_time])%list.
  rewrite <- map_app, finalize_flushed.
  destruct (dark_frames_after st (trailing ++ [quit_time]) Hled) as [E | E];
    rewrite E; clear E.
  - destruct text as [|w ws].
    + now rewrite (Hnil eq_refl).
    + destruct Hcons as (a & c & r & c' & r' & Ef & Ha & Eh & Hc & El & Hc');
        [discriminate|].
      rewrite Ef. rewrite <- (append_nil_r (text_of (w :: ws))) at 1.
      now apply (strip_padded _ c r c' r').
  - destruct text as [|w ws].
    + now rewrite (Hnil eq_refl).
    + destruct Hcons as (a & c & r & c' & r' & Ef & Ha & Eh & Hc & El & Hc');
        [discriminate|].
      rewrite Ef, append_assoc.
      now apply (strip_padded _ c r c' r').
Qed.

(** X16.  A signal whose timing fits the thresholds is decoded as keyed,
    whatever frames the loop sees in between.  The signal is given frame by
    frame: for each pulse the LED-off frames before it (none later than its
    first lit frame), its first lit frame, the LED-on frames during it and
    the first frame after it; then any LED-off frames and the frame on which
    [q] is pressed.  If the gaps the state machine measures within each
    letter classify as no gap, between the letters of a word as letter gaps
    and between words as word gaps, the message the program prints is the
    words, each the decoded patterns of its letters (a dot or dash per pulse
    by its measured on duration), joined by single spaces.  This includes
    the runs of the periodic check that the LED-off frames trigger. *)
Theorem timed_signal_decoded (t0 t1 : Q) (text : list (list (list keyed_pulse)))
        (trailing : list Q) (quit_time : Q) :
  text_timed t0 text = true ->
  (main_receiver t0 t1 (signal_frames text ++ quit_frames trailing quit_time)).2
  = text_of text.
Proof. apply timed_signal_printed. Qed.

Lemma timed_signal_decoded_witness :
  let text :=
    [ [ [KeyedPulse [1000.2]%Q 1000.3 [1000.35]%Q 1000.4;
         KeyedPulse []%Q 1000.5 []%Q 1000.89];
        [KeyedPulse [1001.2]%Q 1001.59 [1001.8]%Q 1002.09] ];
      [ [KeyedPulse [1002.6; 1003.2; 1003.8]%Q 1004.09 [1004.3]%Q 1004.54] ] ]%Q in
  text_timed 1000 text = true
  /\ decoded_message
       (main_loop (initial 1000 1000)
          (pulse_frames (KeyedPulse [1000.2]%Q 1000.3 [1000.35]%Q 1000.4)
           ++ pulse_frames (KeyedPulse []%Q 1000.5 []%Q 1000.89)
           ++ pulse_frames (KeyedPulse [1001.2]%Q 1001.59 [1001.8]%Q 1002.09)
           ++ [sample_frame 1002.6 false; sample_frame 1003.2 false]))
     = "IT "
  /\ (main_receiver 1000 1000
        (signal_frames text ++ quit_frames [1005; 1006]%Q 1007)).2
     = "IT T".
Proof.
  split; [vm_compute; reflexivity|]. split; [vm_compute; reflexivity|].
  exact (timed_signal_decoded 1000 1000
           [ [ [KeyedPulse [1000.2]%Q 1000.3 [1000.35]%Q 1000.4;
                KeyedPulse []%Q 1000.5 []%Q 1000.89];
               [KeyedPulse [1001.2]%Q 1001.59 [1001.8]%Q 1002.09] ];
             [ [KeyedPulse [1002.6; 1003.2; 1003.8]%Q 1004.09 [1004.3]%Q 1004.54] ] ]%Q
           [1005; 1006]%Q 1007 eq_refl).
Defined.

Lemma near_bounds n x :
  near n x = true -> (seconds n - 0.1 <= x)%Q /\ (x <= seconds n + 0.1)%Q.
Proof.
  unfold near. rewrite andb_true_iff, !Qle_bool_iff. tauto.
Qed.

Lemma near_element_gap g : near GAP_ELEMENT_MS g = true -> gap_is NoGap g = true.
Proof.
  intros H. apply near_bounds in H as [_ H]. apply gap_is_iff.
  destruct (classifyOffDuration_cases g) as [[E _] | [[_ [K _]] | [_ K]]];
    [exact E | |]; exfalso;
    unfold seconds, GAP_ELEMENT_MS, LETTER_GAP_THRESHOLD_S,
      WORD_GAP_THRESHOLD_S in *; lra.
Qed.

Lemma near_letter_gap g : near GAP_LETTER_MS g = true -> gap_is LetterGap g = true.
Proof.
  intros H. apply near_bounds in H as [H1 H2]. apply gap_is_iff.
  destruct (classifyOffDuration_cases g) as [[_ K] | [[E _] | [_ K]]];
    [| exact E |]; exfalso;
    unfold seconds, GAP_LETTER_MS, LETTER_GAP_THRESHOLD_S,
      WORD_GAP_THRESHOLD_S in *; lra.
Qed.

Lemma near_word_gap g : near GAP_WORD_MS g = true -> gap_is WordGap g = true.
Proof.
  intros H. apply near_bounds in H as [H1 H2]. apply gap_is_iff.
  destruct (classifyOffDuration_cases g) as [[_ K] | [[_ [_ K]] | [E _]]];
    [| | exact E]; exfalso;
    unfold seconds, GAP_WORD_MS, LETTER_GAP_THRESHOLD_S,
      WORD_GAP_THRESHOLD_S in *; lra.
Qed.

Lemma near_symbol c d :
  is_dot_dash c = true -> near (nominal_duration_ms c) d = true ->
  symbol_token (classifyOnDuration d) = String c "".
Proof.
  intros Hc H. apply near_bounds in H as [H1 H2].
  unfold is_dot_dash in Hc.
  apply orb_true_iff in Hc as [Hc | Hc]; apply Ascii.eqb_eq in Hc; subst c;
    destruct (classifyOnDuration_cases d) as [[-> K] | [-> K]];
    try reflexivity; exfalso;
    unfold nominal_duration_ms, seconds, DOT_DURATION_MS, DASH_DURATION_MS,
      DOT_DASH_THRESHOLD_S in *; simpl in *; lra.
Qed.

Lemma symbols_near_rest pat : forall prev ps,
  all_chars is_dot_dash pat = true ->
  symbols_near (near GAP_ELEMENT_MS) prev pat ps = true ->
  symbols_timed prev ps = true /\ pattern_of ps = pat.
Proof.
  induction pat as [|c pat IH]; intros prev ps Hd H.
  - destruct ps; [split; reflexivity | discriminate].
  - destruct ps as [|p ps]; [discriminate|].
    simpl in Hd. apply andb_true_iff in Hd as [Hc Hd].
    simpl in H. apply andb_true_iff in H as [H Hrest].
    apply andb_true_iff in H as [H Hn]. apply andb_true_iff in H as [Hfr Hg].
    destruct (IH _ _ Hd Hrest) as [I1 I2]. simpl.
    rewrite Hfr, (near_element_gap _ Hg), I1, I2, (near_symbol c _ Hc Hn).
    split; reflexivity.
Qed.

Lemma symbols_near_letter first prev pat ps :
  keyable pat = true ->
  symbols_near first prev pat ps = true ->
  letter_timed first prev ps = true /\ pattern_of ps = pat.
Proof.
  unfold keyable. rewrite andb_true_iff. intros [Ht Hd] H.
  destruct pat as [|c pat]; [discriminate|].
  destruct ps as [|p ps]; [discriminate|].
  simpl in Hd. apply andb_true_iff in Hd as [Hc Hd].
  simpl in H. apply andb_true_iff in H as [H Hrest].
  apply andb_true_iff in H as [H Hn]. apply andb_true_iff in H as [Hfr Hg].
  destruct (symbols_near_rest _ _ _ Hd Hrest) as [I1 I2]. simpl.
  rewrite Hfr, Hg, I1, I2, (near_symbol c _ Hc Hn). split; reflexivity.
Qed.

Lemma letters_near_rest pats : forall prev ls,
  forallb keyable pats = true ->
  letters_near (near GAP_LETTER_MS) prev pats ls = true ->
  letters_timed prev ls = true /\ map pattern_of ls = pats.
Proof.
  induction pats as [|pat pats IH]; intros prev ls Hk H.
  - destruct ls; [split; reflexivity | discriminate].
  - destruct ls as [|l ls]; [discriminate|].
    simpl in Hk. apply andb_true_iff in Hk as [Hp Hk].
    simpl in H. apply andb_true_iff in H as [Hl Hrest].
    destruct (symbols_near_letter _ _ _ _ Hp Hl) as [L1 L2].
    destruct (IH _ _ Hk Hrest) as [I1 I2]. simpl.
    assert (L1' : letter_timed (gap_is LetterGap) prev l = true).
    { destruct l as [|p ps]; [discriminate|]. simpl in L1 |- *.
      apply andb_true_iff in L1 as [L1 Ls].
      apply andb_true_iff in L1 as [Lf Lg].
      now rewrite Lf, (near_letter_gap _ Lg), Ls. }
    rewrite L1', I1, L2, I2. split; reflexivity.
Qed.

Lemma letters_near_word first prev w s :
  word_keyable w = true ->
  letters_near first prev w s = true ->
  word_timed first prev s = true /\ map pattern_of s = w.
Proof.
  intros Hk H. destruct w as [|pat pats]; [discriminate|].
  destruct s as [|l ls]; [discriminate|].
  simpl in Hk. apply andb_true_iff in Hk as [Hp Hk].
  simpl in H. apply andb_true_iff in H as [Hl Hrest].
  destruct (symbols_near_letter _ _ _ _ Hp Hl) as [L1 L2].
  destruct (letters_near_rest _ _ _ Hk Hrest) as [I1 I2]. simpl.
  rewrite L1, I1, L2, I2. split; reflexivity.
Qed.

Lemma words_near_rest words : forall prev ws,
  forallb word_keyable words = true ->
  words_near (near GAP_WORD_MS) prev words ws = true ->
  words_timed prev ws = true /\ map (map pattern_of) ws = words.
Proof.
  induction words as [|w words IH]; intros prev ws Hk H.
  - destruct ws; [split; reflexivity | discriminate].
  - destruct ws as [|s ws]; [discriminate|].
    simpl in Hk. apply andb_true_iff in Hk as [Hw Hk].
    simpl in H. apply andb_true_iff in H as [Hs Hrest].
    destruct (letters_near_word _ _ _ _ Hw Hs) as [L1 L2].
    destruct (IH _ _ Hk Hrest) as [I1 I2]. simpl.
    assert (L1' : word_timed (gap_is WordGap) prev s = true).
    { destruct s as [|l ls]; [discriminate|]. simpl in L1 |- *.
      apply andb_true_iff in L1 as [L1 Ls]. rewrite Ls, andb_true_r.
      destruct l as [|p ps]; [discriminate|]. simpl in L1 |- *.
      apply andb_true_iff in L1 as [L1 Lr].
      apply andb_true_iff in L1 as [Lf Lg].
      now rewrite Lf, (near_word_gap _ Lg), Lr. }
    rewrite L1', I1, L2, I2. split; reflexivity.
Qed.

Lemma words_near_text prev words ws :
  forallb word_keyable words = true ->
  words_near (fun _ => true) prev words ws = true ->
  text_timed prev ws = true
  /\ text_of ws = String.concat " " (map decode_letters words).
Proof.
  intros Hk H. unfold text_of.
  destruct words as [|w words]; destruct ws as [|s ws]; try discriminate;
    [split; reflexivity|].
  simpl in Hk. apply andb_true_iff in Hk as [Hw Hk].
  simpl in H. apply andb_true_iff in H as [Hs Hrest].
  destruct (letters_near_word _ _ _ _ Hw Hs) as [L1 L2].
  destruct (words_near_rest _ _ _ Hk Hrest) as [I1 I2].
  split; [simpl; now rewrite L1, I1|].
  rewrite <- I2, <- L2.
  change (map (fun w0 => decode_letters (map pattern_of w0)) (s :: ws))
    with (decode_letters (map pattern_of s)
          :: map (fun w0 => decode_letters (map pattern_of w0)) ws).
  change (map decode_letters (map pattern_of s :: map (map pattern_of) ws))
    with (decode_letters (map pattern_of s)
          :: map decode_letters (map (map pattern_of) ws)).
  now rewrite map_map.
Qed.

Lemma pattern_for_decodes c :
  is_upper c || is_digit c = true ->
  exists p, pattern_for c = Some p
            /\ keyable p = true
            /\ decode_morse p MORSE_TO_TEXT = String c "".
Proof.
  destruct c as [[] [] [] [] [] [] [] []]; intros H;
    try discriminate H;
    (eexists; split; [reflexivity | split; vm_compute; reflexivity]).
Qed.

Lemma encode_word_decodes w :
  all_chars (fun c => is_upper c || is_digit c) w = true ->
  forallb keyable (encode_word w) = true
  /\ decode_letters (encode_word w) = w.
Proof.
  induction w as [|c w IH]; intros H; [split; reflexivity|].
  simpl in H. apply andb_true_iff in H as [Hc Hw].
  destruct (IH Hw) as [I1 I2].
  destruct (pattern_for_decodes c Hc) as (p & Ep & Kp & Dp).
  simpl. rewrite Ep. simpl. rewrite Kp, I1, Dp, I2. split; reflexivity.
Qed.

Lemma encode_words_keyable ws :
  forallb sendable ws = true ->
  forallb word_keyable (map encode_word ws) = true
  /\ map decode_letters (map encode_word ws) = ws.
Proof.
  induction ws as [|w ws IH]; intros H; [split; reflexivity|].
  simpl in H. apply andb_true_iff in H as [Hw Hws].
  destruct (IH Hws) as [I1 I2].
  unfold sendable in Hw. apply andb_true_iff in Hw as [Ht Ha].
  destruct (encode_word_decodes w Ha) as [E1 E2].
  simpl. rewrite I1, I2, E2, andb_true_r. split; [|reflexivity].
  destruct w as [|c w]; [discriminate|]. exact E1.
Qed.

(** X17.  Round trip at the nominal timing: words of letters A-Z and digits,
    keyed through the table so that every measured duration and gap is
    within 100 ms of the times of lines 7-11 (dot 200 ms, dash 600 ms,
    200 ms between symbols, 600 ms between letters, 1400 ms between words),
    after any initial gap and with any frames in between, are printed by the
    program as the same words joined by single spaces. *)
Theorem nominal_signal_round_trip (t0 t1 : Q) (words : list string)
        (signal : list (list (list keyed_pulse)))
        (trailing : list Q) (quit_time : Q) :
  forallb sendable words = true ->
  words_near (fun _ => true) t0 (map encode_word words) signal = true ->
  (main_receiver t0 t1
     (signal_frames signal ++ quit_frames trailing quit_time)).2
  = String.concat " " words.
Proof.
  intros Hs Hn. destruct (encode_words_keyable words Hs) as [K D].
  destruct (words_near_text t0 _ signal K Hn) as [Ht Et].
  rewrite (timed_signal_printed t0 t1 signal trailing quit_time Ht), Et.
  now rewrite D.
Qed.

Lemma nominal_signal_round_trip_witness :
  let signal :=
    [
   [ [KeyedPulse [1000.300; 1000.600]%Q 1000.750 []%Q 1000.922;
      KeyedPulse []%Q 1001.066 []%Q 1001.290;
      KeyedPulse []%Q 1001.422 []%Q 1001.628];
     [KeyedPulse [1001.928]%Q 1002.207 [1002.457; 1002.707]%Q 1002.736;
      KeyedPulse []%Q 1002.937 [1003.187; 1003.437]%Q 1003.463;
      KeyedPulse []%Q 1003.652 [1003.902; 1004.152]%Q 1004.183];
     [KeyedPulse [1004.483]%Q 1004.718 []%Q 1004.906;
      KeyedPulse []%Q 1005.158 []%Q 1005.298;
      KeyedPulse []%Q 1005.454 []%Q 1005.674] ];
   [ [KeyedPulse [1005.974; 1006.274; 1006.574; 1006.874]%Q 1007.146 [1007.396; 1007.646]%Q 1007.758;
      KeyedPulse []%Q 1007.941 [1008.191; 1008.441]%Q 1008.617;
      KeyedPulse []%Q 1008.744 [1008.994]%Q 1009.001;
      KeyedPulse []%Q 1009.167 []%Q 1009.310;
      KeyedPulse []%Q 1009.449 []%Q 1009.618];
     [KeyedPulse [1009.918; 1010.218]%Q 1010.269 []%Q 1010.418;
      KeyedPulse []%Q 1010.631 []%Q 1010.853;
      KeyedPulse []%Q 1011.033 []%Q 1011.241;
      KeyedPulse []%Q 1011.371 [1011.621; 1011.871]%Q 1011.901;
      KeyedPulse []%Q 1012.054 [1012.304; 1012.554]%Q 1012.683] ] ]%Q in
  forallb sendable ["SOS"; "73"] = true
  /\ words_near (fun _ => true) 1000 (map encode_word ["SOS"; "73"]) signal
     = true
  /\ (main_receiver 1000 1000
        (signal_frames signal ++ quit_frames [1013.083; 1013.583; 1014.183]%Q 1014.683)).2
     = "SOS 73".
Proof.
  split; [reflexivity|]. split; [vm_compute; reflexivity|].
  exact (nominal_signal_round_trip 1000 1000 ["SOS"; "73"]
           [
   [ [KeyedPulse [1000.300; 1000.600]%Q 1000.750 []%Q 1000.922;
      KeyedPulse []%Q 1001.066 []%Q 1001.290;
      KeyedPulse []%Q 1001.422 []%Q 1001.628];
     [KeyedPulse [1001.928]%Q 1002.207 [1002.457; 1002.707]%Q 1002.736;
      KeyedPulse []%Q 1002.937 [1003.187; 1003.437]%Q 1003.463;
      KeyedPulse []%Q 1003.652 [1003.902; 1004.152]%Q 1004.183];
     [KeyedPulse [1004.483]%Q 1004.718 []%Q 1004.906;
      KeyedPulse []%Q 1005.158 []%Q 1005.298;
      KeyedPulse []%Q 1005.454 []%Q 1005.674] ];
   [ [KeyedPulse [1005.974; 1006.274; 1006.574; 1006.874]%Q 1007.146 [1007.396; 1007.646]%Q 1007.758;
      KeyedPulse []%Q 1007.941 [1008.191; 1008.441]%Q 1008.617;
      KeyedPulse []%Q 1008.744 [1008.994]%Q 1009.001;
      KeyedPulse []%Q 1009.167 []%Q 1009.310;
      KeyedPulse []%Q 1009.449 []%Q 1009.618];
     [KeyedPulse [1009.918; 1010.218]%Q 1010.269 []%Q 1010.418;
      KeyedPulse []%Q 1010.631 []%Q 1010.853;
      KeyedPulse []%Q 1011.033 []%Q 1011.241;
      KeyedPulse []%Q 1011.371 [1011.621; 1011.871]%Q 1011.901;
      KeyedPulse []%Q 1012.054 [1012.304; 1012.554]%Q 1012.683] ] ]%Q
           [1013.083; 1013.583; 1014.183]%Q 1014.683 eq_refl eq_refl).
Defined.
